(** * httpexpect: the Number and Boolean wrappers and their failure chain

    A shallow embedding of [number.go] and [boolean.go].  Both files declare
    a struct made of a [chain] and a payload, a constructor that allocates
    the struct and returns a pointer to it, and methods with a pointer
    receiver that report through [n.chain.fail] and return the receiver.

    The embedding keeps that shape: wrappers live in a store indexed by
    addresses, the reporter is an external sink whose received calls are
    recorded, and every method is a computation over the store that may stop
    with a run-time panic (an address that holds no wrapper). *)

From Stdlib Require Import ZArith Bool List Lia.
From Stdlib Require Import Floats.SpecFloat.
From stdpp Require Import base option gmap strings.

Local Open Scope Z_scope.

(** ** Values of the host language *)

(** [float64] is IEEE 754 binary64: 53 bits of precision, exponents below
    1024.  [spec_float] has one NaN, two zeros, two infinities and the
    finite numbers [(-1)^s * m * 2^e]. *)
Definition float64 : Type := spec_float.

Definition prec64 : Z := 53.
Definition emax64 : Z := 1024.

(** Comparison operators of Go on [float64] operands. *)
Definition feq (x y : float64) : bool := SFeqb x y.          (* x == y *)
Definition fne (x y : float64) : bool := negb (SFeqb x y).   (* x != y *)
Definition fgt (x y : float64) : bool := SFltb y x.          (* x >  y *)
Definition fge (x y : float64) : bool := SFleb y x.          (* x >= y *)
Definition flt (x y : float64) : bool := SFltb x y.          (* x <  y *)
Definition fle (x y : float64) : bool := SFleb x y.          (* x <= y *)

(** Conversion of an integer to [float64], rounding to nearest even. *)
Definition float64_of_Z (i : Z) : float64 :=
  binary_normalize prec64 emax64 i 0 false.

(** Conversion of a [float32] to [float64]: the value is kept, the mantissa
    is realigned to 53 bits. *)
Definition float64_of_float32 (f : spec_float) : float64 :=
  match f with
  | S754_finite s m e => binary_round prec64 emax64 s m e
  | _ => f
  end.

(** The integer kinds of Go. *)
Inductive intKind : Set :=
| Int | Int8 | Int16 | Int32 | Int64
| Uint | Uint8 | Uint16 | Uint32 | Uint64 | Uintptr.

(** A value of type [interface{}], as the methods of [Number] receive their
    operands. *)
Inductive any : Type :=
| Nil
| BoolV (b : bool)
| StringV (s : string)
| IntV (k : intKind) (i : Z)
| Float32V (f : spec_float)
| Float64V (f : float64).

(** ** Chain, wrappers and the store *)

(** A [Reporter] is an interface value; its identity names the sink that
    receives the failures. *)
Definition Reporter : Type := nat.

(** One call of [Reporter.Errorf(message, args...)]. *)
Definition report : Type := Reporter * string * list any.

(** Modelled from the spec: the struct [chain] is declared in a file that is
    not among the sources.  "Chain: {reporter: Reporter, failed: bool}". *)
Record chain : Type := Chain { reporter : Reporter; failed : bool }.

(** [type Number struct { chain chain; value float64 }] *)
Record Number : Type := MkNumber { Number_chain : chain; Number_value : float64 }.

(** [type Boolean struct { chain chain; value bool }] *)
Record Boolean : Type := MkBoolean { Boolean_chain : chain; Boolean_value : bool }.

Definition loc : Type := positive.

(** The store: the allocated wrappers, and the calls the reporters have
    received so far, oldest first. *)
Record world : Type := World {
  numbers : gmap loc Number;
  booleans : gmap loc Boolean;
  errorf : list report
}.

Definition empty_world : world := World ∅ ∅ [].

(** A pointer to a [chain]: the address of the [chain] field of a wrapper
    ([&n.chain], [&b.chain]). *)
Inductive chainPtr : Type :=
| NumberChain (n : loc)
| BooleanChain (b : loc).

(** ** Computations over the store *)

(** [None] is a run-time panic. *)
Definition M (A : Type) : Type := world -> option (A * world).

#[global] Instance M_ret : MRet M := fun A a w => Some (a, w).
#[global] Instance M_bind : MBind M := fun A B f m w =>
  match m w with
  | Some (a, w') => f a w'
  | None => None
  end.

(** Reading and writing a [chain] through a pointer to it. *)
Definition loadChain (c : chainPtr) : M chain := fun w =>
  match c with
  | NumberChain n =>
      match numbers w !! n with
      | Some N => Some (Number_chain N, w)
      | None => None
      end
  | BooleanChain b =>
      match booleans w !! b with
      | Some B => Some (Boolean_chain B, w)
      | None => None
      end
  end.

Definition storeChain (c : chainPtr) (ch : chain) : M unit := fun w =>
  match c with
  | NumberChain n =>
      match numbers w !! n with
      | Some N =>
          Some (tt, World (<[n := MkNumber ch (Number_value N)]> (numbers w))
                          (booleans w) (errorf w))
      | None => None
      end
  | BooleanChain b =>
      match booleans w !! b with
      | Some B =>
          Some (tt, World (numbers w)
                          (<[b := MkBoolean ch (Boolean_value B)]> (booleans w))
                          (errorf w))
      | None => None
      end
  end.

(** [reporter.Errorf(message, args...)]: the sink records the call and
    returns. *)
Definition Errorf (r : Reporter) (message : string) (args : list any) : M unit :=
  fun w => Some (tt, World (numbers w) (booleans w) (errorf w ++ [(r, message, args)])).

(** Modelled from the spec: [makeChain] is not among the sources.  A
    constructor "taking a reporter and a raw value" yields a wrapper whose
    chain records the reporter and is not failed. *)
Definition makeChain (r : Reporter) : chain := Chain r false.

(** Modelled from the spec: [chain.fail] is not among the sources.
    "[fail(message, args...)]: idempotent-in-effect -- marks chain failed and
    invokes the reporter exactly once per call"; "if already failed, still
    safe to call"; "Once failed, a chain suppresses all further reporting from
    itself".  The same paragraph asks that nothing be reported for a chain
    that is failed already and leaves open where the flag is tested; the
    methods of [number.go] and [boolean.go] call [fail] without testing it,
    and the package documentation says "If specific instance is marked as
    failed, all subsequent checks are ignored for this instance", so the test
    is made here: a first call marks the chain and calls the reporter once, a
    later call does nothing. *)
Definition fail (c : chainPtr) (message : string) (args : list any) : M unit :=
  ch ← loadChain c;
  if failed ch then mret tt
  else
    storeChain c (Chain (reporter ch) true);;
    Errorf (reporter ch) message args.

(** Modelled from the spec: the numeric scalars, the operands
    [canonNumber] "accepts" and "converts to float64". *)
Definition toFloat64 (number : any) : option float64 :=
  match number with
  | IntV _ i => Some (float64_of_Z i)
  | Float32V f => Some (float64_of_float32 f)
  | Float64V f => Some f
  | _ => None
  end.

(** Modelled from the spec: [canonNumber] is not among the sources.
    "[canonNumber(chain, raw) -> (float64, ok)]: accepts any numeric scalar
    type, converts to float64; fails with a descriptive message on
    non-numeric input."  The text of the message is not given; the operand is
    passed as its argument. *)
Definition canonNumber (c : chainPtr) (number : any) : M (float64 * bool) :=
  match toFloat64 number with
  | Some f => mret (f, true)
  | None =>
      fail c "cannot convert %v to float64" [number];;
      mret (S754_zero false, false)
  end.

(** ** number.go *)

Module Number.

(** Field access [n.value]. *)
Definition value (n : loc) : M float64 := fun w =>
  match numbers w !! n with
  | Some N => Some (Number_value N, w)
  | None => None
  end.

(** [&Number{makeChain(reporter), value}] *)
Definition NewNumber (r : Reporter) (v : float64) : M loc := fun w =>
  let n := fresh (dom (numbers w)) in
  Some (n, World (<[n := MkNumber (makeChain r) v]> (numbers w))
                 (booleans w) (errorf w)).

Definition Raw (n : loc) : M float64 := value n.

Definition Equal (n : loc) (value_ : any) : M loc :=
  '(v, ok) ← canonNumber (NumberChain n) value_;
  if negb ok then mret n
  else
    x ← value n;
    (if negb (feq x v)
     then fail (NumberChain n) "expected number == %v, but got %v"
               [Float64V v; Float64V x]
     else mret tt);;
    mret n.

Definition NotEqual (n : loc) (value_ : any) : M loc :=
  '(v, ok) ← canonNumber (NumberChain n) value_;
  if negb ok then mret n
  else
    x ← value n;
    (if negb (fne x v)
     then fail (NumberChain n) "expected number != %v, but got %v"
               [Float64V v; Float64V x]
     else mret tt);;
    mret n.

Definition Gt (n : loc) (value_ : any) : M loc :=
  '(v, ok) ← canonNumber (NumberChain n) value_;
  if negb ok then mret n
  else
    x ← value n;
    (if negb (fgt x v)
     then fail (NumberChain n) "expected number > %v, but got %v"
               [Float64V v; Float64V x]
     else mret tt);;
    mret n.

Definition Ge (n : loc) (value_ : any) : M loc :=
  '(v, ok) ← canonNumber (NumberChain n) value_;
  if negb ok then mret n
  else
    x ← value n;
    (if negb (fge x v)
     then fail (NumberChain n) "expected number >= %v, but got %v"
               [Float64V v; Float64V x]
     else mret tt);;
    mret n.

Definition Lt (n : loc) (value_ : any) : M loc :=
  '(v, ok) ← canonNumber (NumberChain n) value_;
  if negb ok then mret n
  else
    x ← value n;
    (if negb (flt x v)
     then fail (NumberChain n) "expected number < %v, but got %v"
               [Float64V v; Float64V x]
     else mret tt);;
    mret n.

Definition Le (n : loc) (value_ : any) : M loc :=
  '(v, ok) ← canonNumber (NumberChain n) value_;
  if negb ok then mret n
  else
    x ← value n;
    (if negb (fle x v)
     then fail (NumberChain n) "expected number <= %v, but got %v"
               [Float64V v; Float64V x]
     else mret tt);;
    mret n.

Definition InRange (n : loc) (min max : any) : M loc :=
  '(a, ok) ← canonNumber (NumberChain n) min;
  if negb ok then mret n
  else
    '(b, ok) ← canonNumber (NumberChain n) max;
    if negb ok then mret n
    else
      x ← value n;
      (if negb (fge x a && fle x b)
       then fail (NumberChain n) "expected number in range [%v; %v], but got %v"
                 [Float64V a; Float64V b; Float64V x]
       else mret tt);;
      mret n.

End Number.

(** ** boolean.go *)

Module Boolean.

(** Field access [b.value]. *)
Definition value (b : loc) : M bool := fun w =>
  match booleans w !! b with
  | Some B => Some (Boolean_value B, w)
  | None => None
  end.

(** [&Boolean{makeChain(reporter), value}] *)
Definition NewBoolean (r : Reporter) (v : bool) : M loc := fun w =>
  let b := fresh (dom (booleans w)) in
  Some (b, World (numbers w)
                 (<[b := MkBoolean (makeChain r) v]> (booleans w))
                 (errorf w)).

Definition Raw (b : loc) : M bool := value b.

Definition Equal (b : loc) (value_ : bool) : M loc :=
  x ← value b;
  (if negb (Bool.eqb x value_)
   then fail (BooleanChain b) "expected boolean == %v, but got %v"
             [BoolV value_; BoolV x]
   else mret tt);;
  mret b.

Definition NotEqual (b : loc) (value_ : bool) : M loc :=
  x ← value b;
  (if negb (negb (Bool.eqb x value_))
   then fail (BooleanChain b) "expected boolean != %v, but got %v"
             [BoolV value_; BoolV x]
   else mret tt);;
  mret b.

Definition True (b : loc) : M loc := Equal b true.

Definition False (b : loc) : M loc := Equal b false.

End Boolean.

(** ** expect.go *)

(** A [Client] is an interface value; [http.DefaultClient] is the one the
    package falls back to. *)
Inductive Client : Type :=
| DefaultClient
| OtherClient (id : nat).

(** A [Printer] is an interface value. *)
Definition Printer : Type := nat.

(** [type Config struct { BaseURL string; Client Client; Reporter Reporter;
    Printers []Printer }].  The two interface fields may be nil, which is
    [None]. *)
Record Config : Type := MkConfig {
  BaseURL : string;
  Config_Client : option Client;
  Config_Reporter : option Reporter;
  Printers : list Printer
}.

(** [type Expect struct { config Config }].  An [Expect] is never written
    to after it is made, so the pointer [WithConfig] returns is modelled by
    the struct it points to. *)
Record Expect : Type := MkExpect { config : Config }.

(** [panic("config.Reporter is nil")] is [None]. *)
Definition WithConfig (config_ : Config) : M Expect := fun w =>
  let config_ :=
    match Config_Client config_ with
    | None => MkConfig (BaseURL config_) (Some DefaultClient)
                       (Config_Reporter config_) (Printers config_)
    | Some _ => config_
    end in
  match Config_Reporter config_ with
  | None => None
  | Some _ => Some (MkExpect config_, w)
  end.

Module Expect.

(** [NewNumber(e.config.Reporter, value)].  [NewNumber] asks that the
    "reporter should not be nil", and the chain holds a reporter that is not:
    a call with a nil reporter, which no [Expect] made by [WithConfig] has,
    is given no wrapper. *)
Definition Number (e : Expect) (value_ : float64) : M loc :=
  match Config_Reporter (config e) with
  | Some r => Number.NewNumber r value_
  | None => fun _ => None
  end.

(** [NewBoolean(e.config.Reporter, value)], with the same proviso. *)
Definition Boolean (e : Expect) (value_ : bool) : M loc :=
  match Config_Reporter (config e) with
  | Some r => Boolean.NewBoolean r value_
  | None => fun _ => None
  end.

End Expect.

(** ** Vocabulary of the statements *)

(** Modelled from the spec: [chain.failed] is not among the sources.
    "[failed() -> bool]: query state." *)
Definition chainFailed (c : chainPtr) : M bool :=
  ch ← loadChain c; mret (failed ch).

(** The calls of the assertion methods, as data, so that statements can
    range over all of them and over sequences of them. *)
Inductive numberCall : Type :=
| CallEqual (value_ : any)
| CallNotEqual (value_ : any)
| CallGt (value_ : any)
| CallGe (value_ : any)
| CallLt (value_ : any)
| CallLe (value_ : any)
| CallInRange (min max : any).

Definition callNumber (o : numberCall) (n : loc) : M loc :=
  match o with
  | CallEqual v => Number.Equal n v
  | CallNotEqual v => Number.NotEqual n v
  | CallGt v => Number.Gt n v
  | CallGe v => Number.Ge n v
  | CallLt v => Number.Lt n v
  | CallLe v => Number.Le n v
  | CallInRange min max => Number.InRange n min max
  end.

Inductive booleanCall : Type :=
| CallBEqual (value_ : bool)
| CallBNotEqual (value_ : bool)
| CallTrue
| CallFalse.

Definition callBoolean (o : booleanCall) (b : loc) : M loc :=
  match o with
  | CallBEqual v => Boolean.Equal b v
  | CallBNotEqual v => Boolean.NotEqual b v
  | CallTrue => Boolean.True b
  | CallFalse => Boolean.False b
  end.

(** A fluent chain of calls [n.A(..).B(..)...]: each call is made on the
    wrapper the previous one returned. *)
Fixpoint callsNumber (os : list numberCall) (n : loc) : M loc :=
  match os with
  | [] => mret n
  | o :: os' => n' ← callNumber o n; callsNumber os' n'
  end.

Fixpoint callsBoolean (os : list booleanCall) (b : loc) : M loc :=
  match os with
  | [] => mret b
  | o :: os' => b' ← callBoolean o b; callsBoolean os' b'
  end.

(** A wrapper whose chain has been marked as failed, everything else kept. *)
Definition markNumber (N : Number) : Number :=
  MkNumber (Chain (reporter (Number_chain N)) true) (Number_value N).

Definition markBoolean (B : Boolean) : Boolean :=
  MkBoolean (Chain (reporter (Boolean_chain B)) true) (Boolean_value B).

(** The store after a failure is charged to the Number at [n], which holds
    [N]: the chain is marked and the reporter called once, unless the chain
    has failed before. *)
Definition blameNumber (n : loc) (N : Number) (message : string)
    (args : list any) (w : world) : world :=
  if failed (Number_chain N) then w
  else World (<[n := markNumber N]> (numbers w))
             (booleans w)
             (errorf w ++ [(reporter (Number_chain N), message, args)]).

Definition blameBoolean (b : loc) (B : Boolean) (message : string)
    (args : list any) (w : world) : world :=
  if failed (Boolean_chain B) then w
  else World (numbers w)
             (<[b := markBoolean B]> (booleans w))
             (errorf w ++ [(reporter (Boolean_chain B), message, args)]).

(** The shape the six comparisons of [Number] share. *)
Definition compare (test : float64 -> float64 -> bool) (message : string)
    (n : loc) (value_ : any) : M loc :=
  '(v, ok) ← canonNumber (NumberChain n) value_;
  if negb ok then mret n
  else
    x ← Number.value n;
    (if negb (test x v)
     then fail (NumberChain n) message [Float64V v; Float64V x]
     else mret tt);;
    mret n.

(** Some [float64] constants. *)
Definition f123 : float64 := S754_finite false 8655355533852672 (-46).
Definition f123_next : float64 := S754_finite false 8655355533852673 (-46).
Definition f10 : float64 := float64_of_Z 10.
Definition NaN : float64 := S754_nan.

(** A store with one failed Number whose reporter has been called once. *)
Definition failed_world : world :=
  World {[ 1%positive := MkNumber (Chain 7%nat true) f10 ]} ∅
        [(7%nat, "expected number == %v, but got %v"%string,
          [Float64V f123; Float64V f10])].

(** A store with one Number, as [NewNumber(7, 10)] leaves it. *)
Definition ok_world : world :=
  World {[ 1%positive := MkNumber (Chain 7%nat false) f10 ]} ∅ [].

(** [decides m n N w verdict message args]: the call [m], made in store [w]
    on the Number at [n] that holds [N], returns [n]; it succeeds, that is
    the chain is still not failed afterwards, exactly when [verdict] holds,
    and then the store is unchanged; otherwise the chain fails once: its flag
    is set, its reporter receives the one call [message, args], and nothing
    else changes. *)
Definition decides (m : M loc) (n : loc) (N : Number) (w : world)
    (verdict : bool) (message : string) (args : list any) : Prop :=
  exists w',
    m w = Some (n, w') /\
    (chainFailed (NumberChain n) w' = Some (false, w') <-> verdict = true) /\
    (verdict = true -> w' = w) /\
    (verdict = false ->
       chainFailed (NumberChain n) w' = Some (true, w') /\
       numbers w' = <[n := markNumber N]> (numbers w) /\
       booleans w' = booleans w /\
       errorf w' = errorf w ++ [(reporter (Number_chain N), message, args)]).

(** [passes m c w]: the call [m], made in store [w], returns and leaves the
    chain at [c] not failed. *)
Definition passes (m : M loc) (c : chainPtr) (w : world) : Prop :=
  exists p w', m w = Some (p, w') /\ chainFailed c w' = Some (false, w').

(** [decides] for a call on the Boolean at [b] that holds [B]. *)
Definition decidesBoolean (m : M loc) (b : loc) (B : Boolean) (w : world)
    (verdict : bool) (message : string) (args : list any) : Prop :=
  exists w',
    m w = Some (b, w') /\
    (chainFailed (BooleanChain b) w' = Some (false, w') <-> verdict = true) /\
    (verdict = true -> w' = w) /\
    (verdict = false ->
       chainFailed (BooleanChain b) w' = Some (true, w') /\
       booleans w' = <[b := markBoolean B]> (booleans w) /\
       numbers w' = numbers w /\
       errorf w' = errorf w ++ [(reporter (Boolean_chain B), message, args)]).

(** A store with one Boolean, as [NewBoolean(7, true)] leaves it. *)
Definition ok_bool_world : world :=
  World ∅ {[ 1%positive := MkBoolean (Chain 7%nat false) true ]} [].

(** A store with two Numbers, 10 and 123, that report to the same sink. *)
Definition two_world : world :=
  World {[ 1%positive := MkNumber (Chain 7%nat false) f10;
           2%positive := MkNumber (Chain 7%nat false) f123 ]} ∅ [].

(** * Properties *)

(** ** What one call does to the store *)

Lemma fail_Number n N message args w :
  numbers w !! n = Some N ->
  fail (NumberChain n) message args w = Some (tt, blameNumber n N message args w).
Proof.
  intros H. unfold fail, blameNumber, mbind, M_bind, loadChain. rewrite H.
  destruct (failed (Number_chain N)); [reflexivity|].
  unfold storeChain. rewrite H. reflexivity.
Qed.

Lemma fail_Boolean b B message args w :
  booleans w !! b = Some B ->
  fail (BooleanChain b) message args w = Some (tt, blameBoolean b B message args w).
Proof.
  intros H. unfold fail, blameBoolean, mbind, M_bind, loadChain. rewrite H.
  destruct (failed (Boolean_chain B)); [reflexivity|].
  unfold storeChain. rewrite H. reflexivity.
Qed.

Lemma compare_run test message n N value_ w :
  numbers w !! n = Some N ->
  compare test message n value_ w
  = Some (n, match toFloat64 value_ with
             | None => blameNumber n N "cannot convert %v to float64" [value_] w
             | Some v =>
                 if test (Number_value N) v then w
                 else blameNumber n N message
                        [Float64V v; Float64V (Number_value N)] w
             end).
Proof.
  intros H. unfold compare, canonNumber, mbind, M_bind.
  destruct (toFloat64 value_) as [v|].
  - simpl. unfold Number.value. rewrite H.
    destruct (test (Number_value N) v); simpl; [reflexivity|].
    rewrite (fail_Number _ _ _ _ _ H). reflexivity.
  - rewrite (fail_Number _ _ _ _ _ H). reflexivity.
Qed.

Lemma InRange_run n N min max w :
  numbers w !! n = Some N ->
  Number.InRange n min max w
  = Some (n, match toFloat64 min with
             | None => blameNumber n N "cannot convert %v to float64" [min] w
             | Some a =>
                 match toFloat64 max with
                 | None => blameNumber n N "cannot convert %v to float64" [max] w
                 | Some b =>
                     if fge (Number_value N) a && fle (Number_value N) b then w
                     else blameNumber n N
                            "expected number in range [%v; %v], but got %v"
                            [Float64V a; Float64V b; Float64V (Number_value N)] w
                 end
             end).
Proof.
  intros H. unfold Number.InRange, canonNumber, mbind, M_bind.
  destruct (toFloat64 min) as [a|].
  - simpl. destruct (toFloat64 max) as [b|].
    + simpl. unfold Number.value. rewrite H.
      destruct (fge (Number_value N) a && fle (Number_value N) b); simpl;
        [reflexivity|].
      rewrite (fail_Number _ _ _ _ _ H). reflexivity.
    + rewrite (fail_Number _ _ _ _ _ H). reflexivity.
  - rewrite (fail_Number _ _ _ _ _ H). reflexivity.
Qed.

Lemma Boolean_Equal_run b B value_ w :
  booleans w !! b = Some B ->
  Boolean.Equal b value_ w
  = Some (b, if Bool.eqb (Boolean_value B) value_ then w
             else blameBoolean b B "expected boolean == %v, but got %v"
                    [BoolV value_; BoolV (Boolean_value B)] w).
Proof.
  intros H. unfold Boolean.Equal, Boolean.value, mbind, M_bind. rewrite H.
  destruct (Bool.eqb (Boolean_value B) value_); simpl; [reflexivity|].
  rewrite (fail_Boolean _ _ _ _ _ H). reflexivity.
Qed.

Lemma Boolean_NotEqual_run b B value_ w :
  booleans w !! b = Some B ->
  Boolean.NotEqual b value_ w
  = Some (b, if negb (Bool.eqb (Boolean_value B) value_) then w
             else blameBoolean b B "expected boolean != %v, but got %v"
                    [BoolV value_; BoolV (Boolean_value B)] w).
Proof.
  intros H. unfold Boolean.NotEqual, Boolean.value, mbind, M_bind. rewrite H.
  destruct (Bool.eqb (Boolean_value B) value_); simpl; [|reflexivity].
  rewrite (fail_Boolean _ _ _ _ _ H). reflexivity.
Qed.

(** ** The store after a failure *)

Section Blame.
Context (n : loc) (N : Number) (message : string) (args : list any) (w : world).
Hypothesis Hn : numbers w !! n = Some N.

Lemma blameNumber_failed :
  failed (Number_chain N) = true -> blameNumber n N message args w = w.
Proof. unfold blameNumber. intros ->. reflexivity. Qed.

Lemma blameNumber_numbers :
  numbers (blameNumber n N message args w) = <[n := markNumber N]> (numbers w).
Proof.
  unfold blameNumber. destruct N as [[r f] x]. simpl. destruct f; simpl.
  - symmetry. apply insert_id. exact Hn.
  - reflexivity.
Qed.

Lemma blameNumber_lookup :
  numbers (blameNumber n N message args w) !! n = Some (markNumber N).
Proof. rewrite blameNumber_numbers. apply lookup_insert_eq. Qed.

Lemma blameNumber_booleans :
  booleans (blameNumber n N message args w) = booleans w.
Proof. unfold blameNumber. destruct (failed _); reflexivity. Qed.

Lemma blameNumber_errorf :
  errorf (blameNumber n N message args w)
  = errorf w ++ (if failed (Number_chain N) then []
                 else [(reporter (Number_chain N), message, args)]).
Proof.
  unfold blameNumber. destruct (failed _); simpl; [|reflexivity].
  symmetry. apply app_nil_r.
Qed.

Lemma blameNumber_changes :
  failed (Number_chain N) = false -> blameNumber n N message args w <> w.
Proof.
  intros Hf E. apply (f_equal errorf) in E. rewrite blameNumber_errorf, Hf in E.
  apply (f_equal (@length report)) in E. rewrite length_app in E. simpl in E. lia.
Qed.
End Blame.

Section BlameBoolean.
Context (b : loc) (B : Boolean) (message : string) (args : list any) (w : world).
Hypothesis Hb : booleans w !! b = Some B.

Lemma blameBoolean_failed :
  failed (Boolean_chain B) = true -> blameBoolean b B message args w = w.
Proof. unfold blameBoolean. intros ->. reflexivity. Qed.

Lemma blameBoolean_booleans :
  booleans (blameBoolean b B message args w) = <[b := markBoolean B]> (booleans w).
Proof.
  unfold blameBoolean. destruct B as [[r f] x]. simpl. destruct f; simpl.
  - symmetry. apply insert_id. exact Hb.
  - reflexivity.
Qed.

Lemma blameBoolean_lookup :
  booleans (blameBoolean b B message args w) !! b = Some (markBoolean B).
Proof. rewrite blameBoolean_booleans. apply lookup_insert_eq. Qed.

Lemma blameBoolean_numbers :
  numbers (blameBoolean b B message args w) = numbers w.
Proof. unfold blameBoolean. destruct (failed _); reflexivity. Qed.

Lemma blameBoolean_errorf :
  errorf (blameBoolean b B message args w)
  = errorf w ++ (if failed (Boolean_chain B) then []
                 else [(reporter (Boolean_chain B), message, args)]).
Proof.
  unfold blameBoolean. destruct (failed _); simpl; [|reflexivity].
  symmetry. apply app_nil_r.
Qed.
End BlameBoolean.

(** ** Every call either leaves the store alone or charges one failure *)

Lemma callNumber_cases o n N w :
  numbers w !! n = Some N ->
  callNumber o n w = Some (n, w) \/
  exists message args, callNumber o n w = Some (n, blameNumber n N message args w).
Proof.
  intros H.
  assert (Hc : forall test message value_,
    compare test message n value_ w = Some (n, w) \/
    exists message' args,
      compare test message n value_ w = Some (n, blameNumber n N message' args w)).
  { intros test message value_. rewrite (compare_run _ _ _ _ _ _ H).
    destruct (toFloat64 value_) as [v|]; [destruct (test _ v)|]; eauto. }
  destruct o; simpl; try apply Hc.
  rewrite (InRange_run _ _ _ _ _ H).
  destruct (toFloat64 min) as [a|]; [destruct (toFloat64 max) as [b|]|]; eauto.
  destruct (fge _ a && fle _ b); eauto.
Qed.

Lemma callBoolean_cases o b B w :
  booleans w !! b = Some B ->
  callBoolean o b w = Some (b, w) \/
  exists message args, callBoolean o b w = Some (b, blameBoolean b B message args w).
Proof.
  intros H. destruct o; simpl; unfold Boolean.True, Boolean.False;
    rewrite ?(Boolean_Equal_run _ _ _ _ H), ?(Boolean_NotEqual_run _ _ _ _ H).
  - destruct (Bool.eqb _ _); eauto.
  - destruct (negb _); eauto.
  - destruct (Bool.eqb _ _); eauto.
  - destruct (Bool.eqb _ _); eauto.
Qed.

(** On a failed chain a call changes nothing at all. *)
Lemma callNumber_failed o n N w :
  numbers w !! n = Some N -> failed (Number_chain N) = true ->
  callNumber o n w = Some (n, w).
Proof.
  intros H Hf. destruct (callNumber_cases o n N w H) as [E|(m & a & E)]; [exact E|].
  rewrite E, blameNumber_failed; auto.
Qed.

Lemma callBoolean_failed o b B w :
  booleans w !! b = Some B -> failed (Boolean_chain B) = true ->
  callBoolean o b w = Some (b, w).
Proof.
  intros H Hf. destruct (callBoolean_cases o b B w H) as [E|(m & a & E)]; [exact E|].
  rewrite E, blameBoolean_failed; auto.
Qed.

(** ** Failed chains *)

(** C1.  Once a chain is failed, every later operation on it is inert: a
    further [fail], and any sequence of assertion methods called on the Number
    or the Boolean that owns the chain, returns normally with the receiver and
    leaves the whole store as it was; in particular the reporter receives no
    further call.  A wrapper derived from a failed chain starts with the flag
    set, so it is covered as a wrapper whose chain is failed. *)
Theorem failed_chain_inert (c : chainPtr) (ch : chain) (w : world)
    (Hc : loadChain c w = Some (ch, w)) (Hf : failed ch = true) :
  chainFailed c w = Some (true, w) /\
  (forall message args, fail c message args w = Some (tt, w)) /\
  (forall n os, c = NumberChain n -> callsNumber os n w = Some (n, w)) /\
  (forall b os, c = BooleanChain b -> callsBoolean os b w = Some (b, w)).
Proof.
  split; [|split; [|split]].
  - unfold chainFailed, mbind, M_bind. rewrite Hc, Hf. reflexivity.
  - intros message args. unfold fail, mbind, M_bind. rewrite Hc, Hf. reflexivity.
  - intros n os ->. simpl in Hc.
    destruct (numbers w !! n) as [N|] eqn:H; [|discriminate].
    assert (ch = Number_chain N) by congruence. subst ch.
    induction os as [|o os IH]; [reflexivity|].
    simpl. unfold mbind, M_bind.
    rewrite (callNumber_failed o n N w H Hf). exact IH.
  - intros b os ->. simpl in Hc.
    destruct (booleans w !! b) as [B|] eqn:H; [|discriminate].
    assert (ch = Boolean_chain B) by congruence. subst ch.
    induction os as [|o os IH]; [reflexivity|].
    simpl. unfold mbind, M_bind.
    rewrite (callBoolean_failed o b B w H Hf). exact IH.
Qed.

Lemma failed_chain_inert_witness :
  callsNumber [CallEqual (IntV Int 5); CallGt (StringV "x"); CallInRange Nil Nil]
    1%positive failed_world
  = Some (1%positive, failed_world).
Proof.
  apply (failed_chain_inert (NumberChain 1%positive) (Chain 7%nat true) failed_world
           eq_refl eq_refl).
  reflexivity.
Defined.

(** ** The comparisons of Number *)

(** The six comparisons are instances of the shared shape. *)
Lemma comparisons_unfold :
  Number.Equal = compare feq "expected number == %v, but got %v" /\
  Number.NotEqual = compare fne "expected number != %v, but got %v" /\
  Number.Gt = compare fgt "expected number > %v, but got %v" /\
  Number.Ge = compare fge "expected number >= %v, but got %v" /\
  Number.Lt = compare flt "expected number < %v, but got %v" /\
  Number.Le = compare fle "expected number <= %v, but got %v".
Proof. repeat split. Qed.

Lemma canonNumber_run n N number w :
  numbers w !! n = Some N ->
  canonNumber (NumberChain n) number w
  = Some (match toFloat64 number with
          | Some f => ((f, true), w)
          | None => ((S754_zero false, false),
                     blameNumber n N "cannot convert %v to float64" [number] w)
          end).
Proof.
  intros H. unfold canonNumber. destruct (toFloat64 number); [reflexivity|].
  unfold mbind, M_bind. rewrite (fail_Number _ _ _ _ _ H). reflexivity.
Qed.

Lemma chainFailed_Number n N w :
  numbers w !! n = Some N ->
  chainFailed (NumberChain n) w = Some (failed (Number_chain N), w).
Proof. intros H. unfold chainFailed, mbind, M_bind. simpl. rewrite H. reflexivity. Qed.

(** C2.  A comparison whose operand [canonNumber] cannot convert to float64
    fails the chain and returns the receiver: the store it leaves is the one
    [canonNumber] alone leaves, whatever the payload and whichever the
    comparison, so no comparison takes place (when both operands of [InRange]
    are not numeric it is the store [canonNumber] leaves for the first
    one).  In that store the chain of the
    receiver is failed, its reporter and payload are kept, every other wrapper
    is untouched, and the reporter has received the one call of [canonNumber]
    (none if the chain had failed before). *)
Theorem non_numeric_operand_fails (n : loc) (N : Number) (w : world)
    (value_ other : any)
    (Hn : numbers w !! n = Some N) (Hv : toFloat64 value_ = None) :
  exists w',
    canonNumber (NumberChain n) value_ w = Some ((S754_zero false, false), w') /\
    Number.Equal n value_ w = Some (n, w') /\
    Number.NotEqual n value_ w = Some (n, w') /\
    Number.Gt n value_ w = Some (n, w') /\
    Number.Ge n value_ w = Some (n, w') /\
    Number.Lt n value_ w = Some (n, w') /\
    Number.Le n value_ w = Some (n, w') /\
    Number.InRange n value_ other w = Some (n, w') /\
    (toFloat64 other <> None -> Number.InRange n other value_ w = Some (n, w')) /\
    (toFloat64 other = None ->
     Number.InRange n other value_ w = Number.Equal n other w) /\
    chainFailed (NumberChain n) w' = Some (true, w') /\
    numbers w' = <[n := markNumber N]> (numbers w) /\
    booleans w' = booleans w /\
    errorf w' = errorf w ++
      (if failed (Number_chain N) then []
       else [(reporter (Number_chain N), "cannot convert %v to float64"%string,
              [value_])]).
Proof.
  exists (blameNumber n N "cannot convert %v to float64" [value_] w).
  destruct comparisons_unfold as (-> & -> & -> & -> & -> & ->).
  rewrite (canonNumber_run _ _ _ _ Hn), !(compare_run _ _ _ _ _ _ Hn),
    !(InRange_run _ _ _ _ _ Hn), Hv.
  repeat split.
  - intros Ho. destruct (toFloat64 other); [reflexivity|congruence].
  - intros ->. reflexivity.
  - rewrite (chainFailed_Number n (markNumber N)); [reflexivity|].
    apply blameNumber_lookup, Hn.
  - apply blameNumber_numbers, Hn.
  - apply blameNumber_booleans.
  - apply blameNumber_errorf.
Qed.

Lemma non_numeric_operand_fails_witness :
  exists w',
    Number.Equal 1%positive (StringV "x") ok_world = Some (1%positive, w') /\
    Number.InRange 1%positive (IntV Int 5) (StringV "x") ok_world
    = Some (1%positive, w') /\
    chainFailed (NumberChain 1%positive) w' = Some (true, w').
Proof.
  destruct (non_numeric_operand_fails 1%positive
              (MkNumber (Chain 7%nat false) f10) ok_world (StringV "x")
              (IntV Int 5) eq_refl eq_refl)
    as (w' & _ & HE & _ & _ & _ & _ & _ & _ & HR & _ & HF & _).
  exists w'. split; [exact HE|]. split; [|exact HF].
  apply HR. discriminate.
Defined.

(** A call that charges a failure unless its verdict holds decides the
    verdict, when the chain has not failed yet. *)
Lemma decides_intro (m : M loc) (n : loc) (N : Number) (w : world)
    (verdict : bool) message args :
  numbers w !! n = Some N -> failed (Number_chain N) = false ->
  m w = Some (n, if verdict then w else blameNumber n N message args w) ->
  decides m n N w verdict message args.
Proof.
  intros Hn Hok E. eexists. split; [exact E|].
  destruct verdict.
  - rewrite (chainFailed_Number _ _ _ Hn), Hok. repeat split; auto; discriminate.
  - assert (Hl := blameNumber_lookup n N message args w Hn).
    rewrite (chainFailed_Number _ _ _ Hl). simpl.
    split; [split; intros; discriminate|]. split; [discriminate|]. intros _.
    split; [reflexivity|]. split; [apply blameNumber_numbers, Hn|].
    split; [apply blameNumber_booleans|].
    rewrite blameNumber_errorf, Hok. reflexivity.
Qed.

Lemma compare_decides test message (n : loc) (N : Number) (w : world) value_ v :
  numbers w !! n = Some N -> failed (Number_chain N) = false ->
  toFloat64 value_ = Some v ->
  decides (compare test message n value_) n N w (test (Number_value N) v)
    message [Float64V v; Float64V (Number_value N)].
Proof.
  intros Hn Hok Hv. apply decides_intro; auto.
  rewrite (compare_run _ _ _ _ _ _ Hn), Hv. reflexivity.
Qed.

(** An interval whose bounds are inverted holds no number. *)
Lemma inverted_bounds_empty (x a b : float64) :
  flt b a = true -> fge x a && fle x b = false.
Proof.
  unfold flt, fge, fle, SFltb, SFleb. intros H.
  apply andb_false_iff.
  destruct a as [sa|sa| |sa ma ea], b as [sb|sb| |sb mb eb], x as [sx|sx| |sx mx ex];
    simpl in *;
    repeat match goal with s : bool |- _ => destruct s end;
    simpl in *; try discriminate; auto;
    change (Pos.compare_cont Eq) with Pos.compare in *;
    repeat match goal with
    | H : context [Z.compare ?p ?q] |- _ => destruct (Z.compare_spec p q)
    | |- context [Z.compare ?p ?q] => destruct (Z.compare_spec p q)
    | H : context [Pos.compare ?p ?q] |- _ => destruct (Pos.compare_spec p q)
    | |- context [Pos.compare ?p ?q] => destruct (Pos.compare_spec p q)
    end; simpl in *; try discriminate; auto; try lia.
Qed.

(** A number lies between a bound and itself exactly when it equals it. *)
Lemma between_same_bound (x a : float64) :
  fge x a && fle x a = feq x a.
Proof.
  unfold fge, fle, feq, SFleb, SFeqb.
  destruct a as [sa|sa| |sa ma ea], x as [sx|sx| |sx mx ex];
    simpl in *;
    repeat match goal with s : bool |- _ => destruct s end;
    simpl in *; try reflexivity;
    change (Pos.compare_cont Eq) with Pos.compare in *;
    rewrite (Z.compare_antisym ea ex), (Pos.compare_antisym ma mx);
    destruct (ea ?= ex); simpl; try reflexivity;
    destruct (ma ?= mx)%positive; reflexivity.
Qed.

(** C3.  With numeric bounds converted to [a] and [b], [InRange] succeeds
    exactly when [a <= x] and [x <= b], both bounds included, and otherwise
    fails the chain once.  The bounds are not validated: when [b < a] the test
    is false for every payload.  [Number(10).InRange(5, 20)] succeeds and
    [Number(10).InRange(20, 5)] fails the chain. *)
Theorem InRange_inclusive (n : loc) (N : Number) (w : world) (min max : any)
    (a b : float64)
    (Hn : numbers w !! n = Some N) (Hok : failed (Number_chain N) = false)
    (Ha : toFloat64 min = Some a) (Hb : toFloat64 max = Some b) :
  decides (Number.InRange n min max) n N w
    (fge (Number_value N) a && fle (Number_value N) b)
    "expected number in range [%v; %v], but got %v"
    [Float64V a; Float64V b; Float64V (Number_value N)] /\
  decides (Number.InRange n min min) n N w (feq (Number_value N) a)
    "expected number in range [%v; %v], but got %v"
    [Float64V a; Float64V a; Float64V (Number_value N)] /\
  (flt b a = true -> fge (Number_value N) a && fle (Number_value N) b = false) /\
  (forall r : Reporter,
     (n' ← Number.NewNumber r f10; Number.InRange n' (IntV Int 5) (IntV Int 20))
       empty_world
     = Some (1%positive, World {[ 1%positive := MkNumber (Chain r false) f10 ]} ∅ [])) /\
  (forall r : Reporter,
     (n' ← Number.NewNumber r f10; Number.InRange n' (IntV Int 20) (IntV Int 5))
       empty_world
     = Some (1%positive,
             World {[ 1%positive := MkNumber (Chain r true) f10 ]} ∅
               [(r, "expected number in range [%v; %v], but got %v"%string,
                 [Float64V (float64_of_Z 20); Float64V (float64_of_Z 5);
                  Float64V f10])])).
Proof.
  split; [|split; [|split; [|split]]].
  - apply decides_intro; auto.
    rewrite (InRange_run _ _ _ _ _ Hn), Ha, Hb. reflexivity.
  - apply decides_intro; auto.
    rewrite (InRange_run _ _ _ _ _ Hn), Ha.
    rewrite <- between_same_bound. reflexivity.
  - apply inverted_bounds_empty.
  - intros r. reflexivity.
  - intros r. reflexivity.
Qed.

Lemma InRange_inclusive_witness :
  decides (Number.InRange 1%positive (IntV Int 5) (IntV Int 20)) 1%positive
    (MkNumber (Chain 7%nat false) f10) ok_world true
    "expected number in range [%v; %v], but got %v"
    [Float64V (float64_of_Z 5); Float64V (float64_of_Z 20); Float64V f10].
Proof.
  exact (proj1 (InRange_inclusive 1%positive (MkNumber (Chain 7%nat false) f10)
                  ok_world (IntV Int 5) (IntV Int 20)
                  (float64_of_Z 5) (float64_of_Z 20)
                  eq_refl eq_refl eq_refl eq_refl)).
Defined.

(** [==] on float64 is exact: two operands compare equal only when they are
    the same number, or are both zeros (of either sign); NaN equals
    nothing. *)
Lemma feq_exact (x y : float64) :
  feq x y = true <->
  (x = y /\ x <> S754_nan) \/ (exists s t, x = S754_zero s /\ y = S754_zero t).
Proof.
  unfold feq, SFeqb. split.
  - destruct x as [sx|sx| |sx mx ex], y as [sy|sy| |sy my ey]; simpl;
      repeat match goal with s : bool |- _ => destruct s end;
      simpl; try discriminate; eauto;
      try (intros _; left; split; [reflexivity|discriminate]);
      change (Pos.compare_cont Eq) with Pos.compare;
      destruct (Z.compare_spec ex ey); try discriminate;
      destruct (Pos.compare_spec mx my); try discriminate;
      intros _; left; subst; (split; [reflexivity|discriminate]).
  - intros [[<- Hx]|(s & t & -> & ->)]; [|reflexivity].
    destruct x as [sx|sx| |sx mx ex]; simpl; try congruence;
      destruct sx; try reflexivity;
      change (Pos.compare_cont Eq) with Pos.compare;
      rewrite Z.compare_refl, Pos.compare_refl; reflexivity.
Qed.

(** C4.  With a numeric operand converted to [v], [Equal] succeeds exactly
    when the payload [==] [v] and [NotEqual] exactly when it does not; the
    equality is the exact one of float64, with no tolerance: the float64 next
    to 123 is not equal to 123.  Operands of different numeric types with the
    same value convert to the same float64, so [int32(123)] and
    [float64(123.0)] both equal the payload 123. *)
Theorem Equal_exact (n : loc) (N : Number) (w : world) (value_ : any)
    (v : float64)
    (Hn : numbers w !! n = Some N) (Hok : failed (Number_chain N) = false)
    (Hv : toFloat64 value_ = Some v) :
  decides (Number.Equal n value_) n N w (feq (Number_value N) v)
    "expected number == %v, but got %v" [Float64V v; Float64V (Number_value N)] /\
  decides (Number.NotEqual n value_) n N w (negb (feq (Number_value N) v))
    "expected number != %v, but got %v" [Float64V v; Float64V (Number_value N)] /\
  (feq (Number_value N) v = true <->
   (Number_value N = v /\ v <> NaN) \/
   (exists s t, Number_value N = S754_zero s /\ v = S754_zero t)) /\
  toFloat64 (IntV Int32 123) = toFloat64 (Float64V f123) /\
  (forall r : Reporter,
     (n' ← Number.NewNumber r f123;
      n'' ← Number.Equal n' (IntV Int32 123);
      Number.Equal n'' (Float64V f123)) empty_world
     = Some (1%positive, World {[ 1%positive := MkNumber (Chain r false) f123 ]} ∅ [])) /\
  (forall r : Reporter,
     (n' ← Number.NewNumber r f123; Number.Equal n' (Float64V f123_next))
       empty_world
     = Some (1%positive,
             World {[ 1%positive := MkNumber (Chain r true) f123 ]} ∅
               [(r, "expected number == %v, but got %v"%string,
                 [Float64V f123_next; Float64V f123])])).
Proof.
  destruct comparisons_unfold as (-> & -> & _).
  split; [|split; [|split; [|split; [|split]]]].
  - apply compare_decides; assumption.
  - apply (compare_decides fne); assumption.
  - rewrite feq_exact. split; (intros [[E Hx]|H]; [left|right; exact H]).
    + split; [exact E|]. rewrite <- E. exact Hx.
    + split; [exact E|]. rewrite E. exact Hx.
  - reflexivity.
  - intros r. reflexivity.
  - intros r. reflexivity.
Qed.

Lemma Equal_exact_witness :
  decides (Number.Equal 1%positive (IntV Int32 10)) 1%positive
    (MkNumber (Chain 7%nat false) f10) ok_world true
    "expected number == %v, but got %v" [Float64V f10; Float64V f10].
Proof.
  exact (proj1 (Equal_exact 1%positive (MkNumber (Chain 7%nat false) f10)
                  ok_world (IntV Int32 10) f10 eq_refl eq_refl eq_refl)).
Defined.

(** C5.  With a numeric operand converted to [v] and a payload [x]: [Gt]
    succeeds exactly when [x > v], [Ge] when [x >= v], [Lt] when [x < v] and
    [Le] when [x <= v]; otherwise the call fails the chain once (one call of
    the reporter) and, as in the other case, returns the receiver. *)
Theorem ordering_comparisons (n : loc) (N : Number) (w : world) (value_ : any)
    (v : float64)
    (Hn : numbers w !! n = Some N) (Hok : failed (Number_chain N) = false)
    (Hv : toFloat64 value_ = Some v) :
  decides (Number.Gt n value_) n N w (fgt (Number_value N) v)
    "expected number > %v, but got %v" [Float64V v; Float64V (Number_value N)] /\
  decides (Number.Ge n value_) n N w (fge (Number_value N) v)
    "expected number >= %v, but got %v" [Float64V v; Float64V (Number_value N)] /\
  decides (Number.Lt n value_) n N w (flt (Number_value N) v)
    "expected number < %v, but got %v" [Float64V v; Float64V (Number_value N)] /\
  decides (Number.Le n value_) n N w (fle (Number_value N) v)
    "expected number <= %v, but got %v" [Float64V v; Float64V (Number_value N)].
Proof.
  destruct comparisons_unfold as (_ & _ & -> & -> & -> & ->).
  repeat split; apply compare_decides; assumption.
Qed.

Lemma ordering_comparisons_witness :
  decides (Number.Gt 1%positive (IntV Int 20)) 1%positive
    (MkNumber (Chain 7%nat false) f10) ok_world false
    "expected number > %v, but got %v" [Float64V (float64_of_Z 20); Float64V f10].
Proof.
  exact (proj1 (ordering_comparisons 1%positive (MkNumber (Chain 7%nat false) f10)
                  ok_world (IntV Int 20) (float64_of_Z 20)
                  eq_refl eq_refl eq_refl)).
Defined.

(** ** NaN payloads *)

(** C9.  When the payload is NaN and the chain has not failed: [Equal] fails
    the chain for every numeric operand, NaN included, since [==] is false as
    soon as one side is NaN; [NotEqual] succeeds for every numeric operand;
    [InRange] fails for all numeric bounds. *)
Theorem NaN_payload (n : loc) (N : Number) (w : world) (value_ min max : any)
    (v a b : float64)
    (Hn : numbers w !! n = Some N) (Hok : failed (Number_chain N) = false)
    (Hx : Number_value N = NaN)
    (Hv : toFloat64 value_ = Some v)
    (Ha : toFloat64 min = Some a) (Hb : toFloat64 max = Some b) :
  decides (Number.Equal n value_) n N w false
    "expected number == %v, but got %v" [Float64V v; Float64V NaN] /\
  decides (Number.Equal n (Float64V NaN)) n N w false
    "expected number == %v, but got %v" [Float64V NaN; Float64V NaN] /\
  decides (Number.NotEqual n value_) n N w true
    "expected number != %v, but got %v" [Float64V v; Float64V NaN] /\
  decides (Number.InRange n min max) n N w false
    "expected number in range [%v; %v], but got %v"
    [Float64V a; Float64V b; Float64V NaN].
Proof.
  destruct comparisons_unfold as (EE & EN & _).
  split; [|split; [|split]].
  - rewrite EE.
    pose proof (compare_decides feq "expected number == %v, but got %v"
                  n N w value_ v Hn Hok Hv) as H.
    rewrite Hx in H. exact H.
  - rewrite EE.
    pose proof (compare_decides feq "expected number == %v, but got %v"
                  n N w (Float64V NaN) NaN Hn Hok eq_refl) as H.
    rewrite Hx in H. exact H.
  - rewrite EN.
    pose proof (compare_decides fne "expected number != %v, but got %v"
                  n N w value_ v Hn Hok Hv) as H.
    rewrite Hx in H. exact H.
  - apply decides_intro; auto.
    rewrite (InRange_run _ _ _ _ _ Hn), Ha, Hb, Hx.
    replace (fge NaN a) with false; [reflexivity|].
    unfold fge, SFleb. destruct a; reflexivity.
Qed.

(** In a store with one Number whose payload is NaN, [Equal(NaN)] fails. *)
Lemma NaN_payload_witness :
  decides (Number.Equal 1%positive (Float64V NaN)) 1%positive
    (MkNumber (Chain 7%nat false) NaN)
    (World {[ 1%positive := MkNumber (Chain 7%nat false) NaN ]} ∅ []) false
    "expected number == %v, but got %v" [Float64V NaN; Float64V NaN].
Proof.
  exact (proj1 (NaN_payload 1%positive (MkNumber (Chain 7%nat false) NaN)
                  (World {[ 1%positive := MkNumber (Chain 7%nat false) NaN ]} ∅ [])
                  (Float64V NaN) (IntV Int 5) (IntV Int 20)
                  NaN (float64_of_Z 5) (float64_of_Z 20)
                  eq_refl eq_refl eq_refl eq_refl eq_refl eq_refl)).
Defined.

(** ** Order of the operands of InRange *)

(** C10.  [InRange] converts [min] first and returns at once when [min] is
    not numeric: the result is the store [canonNumber] leaves for [min], the
    same whatever [max] is, so [max] is never examined, and the reporter
    receives at most one call, which is about [min].  Whatever the operands,
    one call of [InRange] adds at most one call of the reporter. *)
Theorem InRange_min_first (n : loc) (N : Number) (w : world) (min max : any)
    (Hn : numbers w !! n = Some N) :
  (toFloat64 min = None ->
   exists w',
     canonNumber (NumberChain n) min w = Some ((S754_zero false, false), w') /\
     (forall max', Number.InRange n min max' w = Some (n, w')) /\
     errorf w' = errorf w ++
       (if failed (Number_chain N) then []
        else [(reporter (Number_chain N), "cannot convert %v to float64"%string,
               [min])])) /\
  (exists w',
     Number.InRange n min max w = Some (n, w') /\
     exists rs, errorf w' = errorf w ++ rs /\ (length rs <= 1)%nat).
Proof.
  split.
  - intros Hmin.
    exists (blameNumber n N "cannot convert %v to float64" [min] w).
    rewrite (canonNumber_run _ _ _ _ Hn), Hmin.
    split; [reflexivity|]. split.
    + intros max'. rewrite (InRange_run _ _ _ _ _ Hn), Hmin. reflexivity.
    + apply blameNumber_errorf.
  - rewrite (InRange_run _ _ _ _ _ Hn). eexists. split; [reflexivity|].
    assert (Hb : forall message args,
      exists rs, errorf (blameNumber n N message args w) = errorf w ++ rs /\
                 (length rs <= 1)%nat).
    { intros message args. eexists. split; [apply blameNumber_errorf|].
      destruct (failed _); simpl; lia. }
    destruct (toFloat64 min) as [a|]; [destruct (toFloat64 max) as [b|]|];
      try apply Hb.
    destruct (fge _ a && fle _ b); [|apply Hb].
    exists []. split; [symmetry; apply app_nil_r|simpl; lia].
Qed.

Lemma InRange_min_first_witness :
  exists w',
    (forall max', Number.InRange 1%positive (StringV "lo") max' ok_world
                  = Some (1%positive, w')) /\
    errorf w' = [(7%nat, "cannot convert %v to float64"%string, [StringV "lo"])].
Proof.
  destruct (proj1 (InRange_min_first 1%positive (MkNumber (Chain 7%nat false) f10)
                     ok_world (StringV "lo") (StringV "hi") eq_refl) eq_refl)
    as (w' & _ & HR & HE).
  exists w'. split; [exact HR|exact HE].
Defined.

(** ** boolean.go: True and False *)

(** C6.  [True] is [Equal(true)] and [False] is [Equal(false)]: as
    computations over the store they are the same, so they return the same
    wrapper, leave the same chain and make the same call of the reporter. *)
Theorem True_False_delegate (b : loc) (w : world) :
  Boolean.True b w = Boolean.Equal b true w /\
  Boolean.False b w = Boolean.Equal b false w.
Proof. split; reflexivity. Qed.

(** ** Totality *)

(** C7.  Every assertion method of Number and Boolean, called on an allocated
    wrapper, returns normally, whether its check holds or not: it returns the
    receiver, which still holds a wrapper with the same reporter and payload,
    and the store it leaves is either the one it found or the one a single
    call of [fail] on the receiver's chain leaves, so nothing is executed
    after a [fail] but the return. *)
Theorem methods_total (w : world) :
  (forall o n N, numbers w !! n = Some N ->
     exists w',
       callNumber o n w = Some (n, w') /\
       (w' = w \/
        exists message args, fail (NumberChain n) message args w = Some (tt, w')) /\
       exists f, numbers w' !! n
                 = Some (MkNumber (Chain (reporter (Number_chain N)) f)
                                  (Number_value N))) /\
  (forall o b B, booleans w !! b = Some B ->
     exists w',
       callBoolean o b w = Some (b, w') /\
       (w' = w \/
        exists message args, fail (BooleanChain b) message args w = Some (tt, w')) /\
       exists f, booleans w' !! b
                 = Some (MkBoolean (Chain (reporter (Boolean_chain B)) f)
                                   (Boolean_value B))).
Proof.
  split.
  - intros o n N Hn.
    destruct (callNumber_cases o n N w Hn) as [E|(message & args & E)];
      eexists; (split; [exact E|]).
    + split; [left; reflexivity|]. exists (failed (Number_chain N)).
      rewrite Hn. destruct N as [[r f] x]. reflexivity.
    + split.
      * right. exists message, args. apply fail_Number, Hn.
      * exists true. apply blameNumber_lookup, Hn.
  - intros o b B Hb.
    destruct (callBoolean_cases o b B w Hb) as [E|(message & args & E)];
      eexists; (split; [exact E|]).
    + split; [left; reflexivity|]. exists (failed (Boolean_chain B)).
      rewrite Hb. destruct B as [[r f] x]. reflexivity.
    + split.
      * right. exists message, args. apply fail_Boolean, Hb.
      * exists true. apply blameBoolean_lookup, Hb.
Qed.

Lemma methods_total_witness :
  exists w',
    callNumber (CallInRange (IntV Int 20) (IntV Int 5)) 1%positive ok_world
    = Some (1%positive, w').
Proof.
  destruct (proj1 (methods_total ok_world)
              (CallInRange (IntV Int 20) (IntV Int 5)) 1%positive
              (MkNumber (Chain 7%nat false) f10) eq_refl)
    as (w' & E & _).
  exists w'. exact E.
Defined.

(** ** Payloads *)

Lemma callsNumber_frame os : forall (n : loc) (N : Number) (w : world),
  numbers w !! n = Some N ->
  exists w' f,
    callsNumber os n w = Some (n, w') /\
    numbers w' = <[n := MkNumber (Chain (reporter (Number_chain N)) f)
                                 (Number_value N)]> (numbers w) /\
    booleans w' = booleans w /\
    exists rs, errorf w' = errorf w ++ rs.
Proof.
  induction os as [|o os IH]; intros n N w Hn.
  - exists w, (failed (Number_chain N)). split; [reflexivity|].
    split; [|split; [reflexivity|exists []; symmetry; apply app_nil_r]].
    symmetry. apply insert_id. rewrite Hn. destruct N as [[r f] x]. reflexivity.
  - simpl. unfold mbind, M_bind.
    destruct (callNumber_cases o n N w Hn) as [E|(message & args & E)]; rewrite E.
    + apply IH, Hn.
    + destruct (IH n (markNumber N) _ (blameNumber_lookup n N message args w Hn))
        as (w' & f & E' & Hnum & Hbool & rs & Hrs).
      exists w', f. split; [exact E'|]. simpl in Hnum.
      rewrite Hnum, Hbool, Hrs, (blameNumber_numbers _ _ _ _ _ Hn),
        blameNumber_booleans, blameNumber_errorf, insert_insert_eq, <- app_assoc.
      eauto.
Qed.

Lemma callsBoolean_frame os : forall (b : loc) (B : Boolean) (w : world),
  booleans w !! b = Some B ->
  exists w' f,
    callsBoolean os b w = Some (b, w') /\
    booleans w' = <[b := MkBoolean (Chain (reporter (Boolean_chain B)) f)
                                   (Boolean_value B)]> (booleans w) /\
    numbers w' = numbers w /\
    exists rs, errorf w' = errorf w ++ rs.
Proof.
  induction os as [|o os IH]; intros b B w Hb.
  - exists w, (failed (Boolean_chain B)). split; [reflexivity|].
    split; [|split; [reflexivity|exists []; symmetry; apply app_nil_r]].
    symmetry. apply insert_id. rewrite Hb. destruct B as [[r f] x]. reflexivity.
  - simpl. unfold mbind, M_bind.
    destruct (callBoolean_cases o b B w Hb) as [E|(message & args & E)]; rewrite E.
    + apply IH, Hb.
    + destruct (IH b (markBoolean B) _ (blameBoolean_lookup b B message args w Hb))
        as (w' & f & E' & Hbool & Hnum & rs & Hrs).
      exists w', f. split; [exact E'|]. simpl in Hbool.
      rewrite Hnum, Hbool, Hrs, (blameBoolean_booleans _ _ _ _ _ Hb),
        blameBoolean_numbers, blameBoolean_errorf, insert_insert_eq, <- app_assoc.
      eauto.
Qed.

(** C8.  Whatever sequence of assertion methods is applied to a Number or a
    Boolean, succeeding or failing, [Raw] afterwards returns the payload the
    wrapper held before, which for a wrapper made by the constructor is the
    value passed to it; in the store only the failed flag of the wrapper's
    chain may have changed (the other wrappers are untouched, and the
    reporter has only received further calls). *)
Theorem payload_unchanged :
  (forall os n N w, numbers w !! n = Some N ->
     exists w' f,
       callsNumber os n w = Some (n, w') /\
       Number.Raw n w' = Some (Number_value N, w') /\
       numbers w' = <[n := MkNumber (Chain (reporter (Number_chain N)) f)
                                    (Number_value N)]> (numbers w) /\
       booleans w' = booleans w) /\
  (forall os b B w, booleans w !! b = Some B ->
     exists w' f,
       callsBoolean os b w = Some (b, w') /\
       Boolean.Raw b w' = Some (Boolean_value B, w') /\
       booleans w' = <[b := MkBoolean (Chain (reporter (Boolean_chain B)) f)
                                      (Boolean_value B)]> (booleans w) /\
       numbers w' = numbers w) /\
  (forall r x os w, exists w',
     (n ← Number.NewNumber r x; n' ← callsNumber os n; Number.Raw n') w
     = Some (x, w')) /\
  (forall r x os w, exists w',
     (b ← Boolean.NewBoolean r x; b' ← callsBoolean os b; Boolean.Raw b') w
     = Some (x, w')).
Proof.
  assert (HN : forall os n N w, numbers w !! n = Some N ->
     exists w' f,
       callsNumber os n w = Some (n, w') /\
       Number.Raw n w' = Some (Number_value N, w') /\
       numbers w' = <[n := MkNumber (Chain (reporter (Number_chain N)) f)
                                    (Number_value N)]> (numbers w) /\
       booleans w' = booleans w).
  { intros os n N w Hn.
    destruct (callsNumber_frame os n N w Hn) as (w' & f & E & Hnum & Hbool & _).
    exists w', f. repeat split; auto.
    unfold Number.Raw, Number.value. rewrite Hnum, lookup_insert_eq. reflexivity. }
  assert (HB : forall os b B w, booleans w !! b = Some B ->
     exists w' f,
       callsBoolean os b w = Some (b, w') /\
       Boolean.Raw b w' = Some (Boolean_value B, w') /\
       booleans w' = <[b := MkBoolean (Chain (reporter (Boolean_chain B)) f)
                                      (Boolean_value B)]> (booleans w) /\
       numbers w' = numbers w).
  { intros os b B w Hb.
    destruct (callsBoolean_frame os b B w Hb) as (w' & f & E & Hbool & Hnum & _).
    exists w', f. repeat split; auto.
    unfold Boolean.Raw, Boolean.value. rewrite Hbool, lookup_insert_eq. reflexivity. }
  split; [exact HN|]. split; [exact HB|]. split.
  - intros r x os w. unfold mbind, M_bind, Number.NewNumber.
    set (n := fresh (dom (numbers w))).
    set (w1 := World _ _ _).
    destruct (HN os n (MkNumber (makeChain r) x) w1) as (w' & f & E & ER & _).
    { apply lookup_insert_eq. }
    rewrite E, ER. eauto.
  - intros r x os w. unfold mbind, M_bind, Boolean.NewBoolean.
    set (b := fresh (dom (booleans w))).
    set (w1 := World _ _ _).
    destruct (HB os b (MkBoolean (makeChain r) x) w1) as (w' & f & E & ER & _).
    { apply lookup_insert_eq. }
    rewrite E, ER. eauto.
Qed.

Lemma payload_unchanged_witness :
  exists w',
    callsNumber [CallGt (IntV Int 20); CallEqual (StringV "x"); CallLe (IntV Int 10)]
      1%positive ok_world = Some (1%positive, w') /\
    Number.Raw 1%positive w' = Some (f10, w').
Proof.
  destruct (proj1 payload_unchanged
              [CallGt (IntV Int 20); CallEqual (StringV "x"); CallLe (IntV Int 10)]
              1%positive (MkNumber (Chain 7%nat false) f10) ok_world eq_refl)
    as (w' & f & E & ER & _).
  exists w'. split; [exact E|exact ER].
Defined.


(** * Further properties *)

(** ** boolean.go: Equal and NotEqual *)

Lemma chainFailed_Boolean b B w :
  booleans w !! b = Some B ->
  chainFailed (BooleanChain b) w = Some (failed (Boolean_chain B), w).
Proof. intros H. unfold chainFailed, mbind, M_bind. simpl. rewrite H. reflexivity. Qed.

Lemma decidesBoolean_intro (m : M loc) (b : loc) (B : Boolean) (w : world)
    (verdict : bool) message args :
  booleans w !! b = Some B -> failed (Boolean_chain B) = false ->
  m w = Some (b, if verdict then w else blameBoolean b B message args w) ->
  decidesBoolean m b B w verdict message args.
Proof.
  intros Hb Hok E. eexists. split; [exact E|].
  destruct verdict.
  - rewrite (chainFailed_Boolean _ _ _ Hb), Hok. repeat split; auto; discriminate.
  - assert (Hl := blameBoolean_lookup b B message args w Hb).
    rewrite (chainFailed_Boolean _ _ _ Hl). simpl.
    split; [split; intros; discriminate|]. split; [discriminate|]. intros _.
    split; [reflexivity|]. split; [apply blameBoolean_booleans, Hb|].
    split; [apply blameBoolean_numbers|].
    rewrite blameBoolean_errorf, Hok. reflexivity.
Qed.

(** X1.  On a Boolean whose chain has not failed, [Equal(value)] succeeds
    exactly when the payload is [value] and then changes nothing; otherwise
    it fails the chain once, the reporter receiving the expected value and
    the payload, and returns the receiver. *)
Theorem Boolean_Equal_decides (b : loc) (B : Boolean) (w : world) (value_ : bool)
    (Hb : booleans w !! b = Some B) (Hok : failed (Boolean_chain B) = false) :
  decidesBoolean (Boolean.Equal b value_) b B w
    (Bool.eqb (Boolean_value B) value_)
    "expected boolean == %v, but got %v" [BoolV value_; BoolV (Boolean_value B)].
Proof.
  apply decidesBoolean_intro; auto. apply Boolean_Equal_run, Hb.
Qed.

Lemma Boolean_Equal_decides_witness :
  decidesBoolean (Boolean.Equal 1%positive false) 1%positive
    (MkBoolean (Chain 7%nat false) true) ok_bool_world false
    "expected boolean == %v, but got %v" [BoolV false; BoolV true].
Proof.
  exact (Boolean_Equal_decides 1%positive (MkBoolean (Chain 7%nat false) true)
           ok_bool_world false eq_refl eq_refl).
Defined.

(** X2.  On a Boolean whose chain has not failed, [NotEqual(value)] succeeds
    exactly when the payload differs from [value]; otherwise it fails the
    chain once and returns the receiver. *)
Theorem Boolean_NotEqual_decides (b : loc) (B : Boolean) (w : world)
    (value_ : bool)
    (Hb : booleans w !! b = Some B) (Hok : failed (Boolean_chain B) = false) :
  decidesBoolean (Boolean.NotEqual b value_) b B w
    (negb (Bool.eqb (Boolean_value B) value_))
    "expected boolean != %v, but got %v" [BoolV value_; BoolV (Boolean_value B)].
Proof.
  apply decidesBoolean_intro; auto. apply Boolean_NotEqual_run, Hb.
Qed.

Lemma Boolean_NotEqual_decides_witness :
  decidesBoolean (Boolean.NotEqual 1%positive true) 1%positive
    (MkBoolean (Chain 7%nat false) true) ok_bool_world false
    "expected boolean != %v, but got %v" [BoolV true; BoolV true].
Proof.
  exact (Boolean_NotEqual_decides 1%positive (MkBoolean (Chain 7%nat false) true)
           ok_bool_world true eq_refl eq_refl).
Defined.

Lemma decidesBoolean_passes m b B w verdict message args :
  decidesBoolean m b B w verdict message args ->
  (passes m (BooleanChain b) w <-> verdict = true).
Proof.
  intros (w' & E & Hiff & _). unfold passes. split.
  - intros (p & w'' & E' & Hf). rewrite E in E'. inversion E'; subst.
    apply Hiff, Hf.
  - intros Hv. exists b, w'. split; [exact E|]. apply Hiff, Hv.
Qed.

(** X3.  On a Boolean whose chain has not failed, exactly one of
    [Equal(value)] and [NotEqual(value)] succeeds, and [NotEqual(value)]
    succeeds exactly when [Equal(!value)] does; [True] succeeds exactly on the
    payload [true] and [False] exactly on the payload [false]. *)
Theorem Boolean_checks_complementary (b : loc) (B : Boolean) (w : world)
    (value_ : bool)
    (Hb : booleans w !! b = Some B) (Hok : failed (Boolean_chain B) = false) :
  (passes (Boolean.Equal b value_) (BooleanChain b) w <->
   ~ passes (Boolean.NotEqual b value_) (BooleanChain b) w) /\
  (passes (Boolean.NotEqual b value_) (BooleanChain b) w <->
   passes (Boolean.Equal b (negb value_)) (BooleanChain b) w) /\
  (passes (Boolean.True b) (BooleanChain b) w <-> Boolean_value B = true) /\
  (passes (Boolean.False b) (BooleanChain b) w <-> Boolean_value B = false).
Proof.
  pose proof (fun v => decidesBoolean_passes _ _ _ _ _ _ _
                         (Boolean_Equal_decides b B w v Hb Hok)) as HE.
  pose proof (fun v => decidesBoolean_passes _ _ _ _ _ _ _
                         (Boolean_NotEqual_decides b B w v Hb Hok)) as HN.
  unfold Boolean.True, Boolean.False.
  rewrite !HE, !HN.
  destruct (Boolean_value B), value_; simpl; intuition congruence.
Qed.

Lemma Boolean_checks_complementary_witness :
  passes (Boolean.True 1%positive) (BooleanChain 1%positive) ok_bool_world.
Proof.
  apply (Boolean_checks_complementary 1%positive
           (MkBoolean (Chain 7%nat false) true) ok_bool_world true
           eq_refl eq_refl).
  reflexivity.
Defined.

(** X4.  [b.True().False()] fails the chain of every Boolean: afterwards the
    chain is failed, and when it had not failed before the reporter has
    received exactly one call, made by the one of the two checks that the
    payload contradicts. *)
Theorem Boolean_True_False_fails (b : loc) (B : Boolean) (w : world)
    (Hb : booleans w !! b = Some B) :
  exists w',
    (b' ← Boolean.True b; Boolean.False b') w = Some (b, w') /\
    chainFailed (BooleanChain b) w' = Some (true, w') /\
    Boolean.Raw b w' = Some (Boolean_value B, w') /\
    errorf w' = errorf w ++
      (if failed (Boolean_chain B) then []
       else [(reporter (Boolean_chain B), "expected boolean == %v, but got %v"%string,
              [BoolV (negb (Boolean_value B)); BoolV (Boolean_value B)])]).
Proof.
  unfold mbind, M_bind, Boolean.True, Boolean.False.
  rewrite (Boolean_Equal_run _ _ _ _ Hb).
  destruct B as [[r f] x]. destruct x; simpl.
  - rewrite (Boolean_Equal_run _ _ _ _ Hb). simpl.
    eexists. split; [reflexivity|].
    assert (Hl := blameBoolean_lookup b _ "expected boolean == %v, but got %v"
                    [BoolV false; BoolV true] w Hb).
    split; [rewrite (chainFailed_Boolean _ _ _ Hl); reflexivity|].
    split; [unfold Boolean.Raw, Boolean.value; rewrite Hl; reflexivity|].
    apply blameBoolean_errorf.
  - assert (Hl := blameBoolean_lookup b _ "expected boolean == %v, but got %v"
                    [BoolV true; BoolV false] w Hb).
    rewrite (Boolean_Equal_run _ _ _ _ Hl). simpl.
    eexists. split; [reflexivity|].
    split; [rewrite (chainFailed_Boolean _ _ _ Hl); reflexivity|].
    split; [unfold Boolean.Raw, Boolean.value; rewrite Hl; reflexivity|].
    apply blameBoolean_errorf.
Qed.

Lemma Boolean_True_False_fails_witness :
  exists w',
    (b' ← Boolean.True 1%positive; Boolean.False b') ok_bool_world
    = Some (1%positive, w') /\
    chainFailed (BooleanChain 1%positive) w' = Some (true, w').
Proof.
  destruct (Boolean_True_False_fails 1%positive
              (MkBoolean (Chain 7%nat false) true) ok_bool_world eq_refl)
    as (w' & E & HF & _).
  exists w'. split; [exact E|exact HF].
Defined.

(** ** number.go: how the comparisons relate *)

(** Swapping the operands of a comparison of float64 mirrors its result. *)
Lemma SFcompare_swap (x y : float64) :
  SFcompare y x = option_map CompOpp (SFcompare x y).
Proof.
  destruct x as [sx|sx| |sx mx ex], y as [sy|sy| |sy my ey]; simpl;
    repeat match goal with s : bool |- _ => destruct s end;
    simpl; try reflexivity;
    change (Pos.compare_cont Eq) with Pos.compare;
    rewrite (Z.compare_antisym ex ey), (Pos.compare_antisym mx my);
    destruct (ex ?= ey); simpl; try reflexivity;
    destruct (mx ?= my)%positive; reflexivity.
Qed.

Lemma feq_sym (x y : float64) : feq x y = feq y x.
Proof.
  unfold feq, SFeqb. rewrite (SFcompare_swap x y).
  destruct (SFcompare x y) as [[]|]; reflexivity.
Qed.

Lemma fge_split (x v : float64) : fge x v = fgt x v || feq x v.
Proof.
  rewrite feq_sym. unfold fge, fgt, feq, SFleb, SFltb, SFeqb.
  destruct (SFcompare v x) as [[]|]; reflexivity.
Qed.

Lemma fle_split (x v : float64) : fle x v = flt x v || feq x v.
Proof.
  unfold fle, flt, feq, SFleb, SFltb, SFeqb.
  destruct (SFcompare x v) as [[]|]; reflexivity.
Qed.

Lemma SFcompare_None (x y : float64) :
  SFcompare x y = None <-> x = NaN \/ y = NaN.
Proof.
  unfold NaN. split.
  - destruct x, y; simpl; try discriminate; auto;
      repeat match goal with |- context [if ?s then _ else _] => destruct s end;
      discriminate.
  - intros [-> | ->]; [reflexivity|]. destruct x; reflexivity.
Qed.

Lemma decides_passes m n N w verdict message args :
  decides m n N w verdict message args ->
  (passes m (NumberChain n) w <-> verdict = true).
Proof.
  intros (w' & E & Hiff & _). unfold passes. split.
  - intros (p & w'' & E' & Hf). rewrite E in E'. inversion E'; subst.
    apply Hiff, Hf.
  - intros Hv. exists n, w'. split; [exact E|]. apply Hiff, Hv.
Qed.

Section Comparisons.
Context (n : loc) (N : Number) (w : world) (value_ : any) (v : float64).
Hypothesis Hn : numbers w !! n = Some N.
Hypothesis Hok : failed (Number_chain N) = false.
Hypothesis Hv : toFloat64 value_ = Some v.

Lemma passes_comparisons :
  (passes (Number.Equal n value_) (NumberChain n) w <-> feq (Number_value N) v = true) /\
  (passes (Number.NotEqual n value_) (NumberChain n) w <-> fne (Number_value N) v = true) /\
  (passes (Number.Gt n value_) (NumberChain n) w <-> fgt (Number_value N) v = true) /\
  (passes (Number.Ge n value_) (NumberChain n) w <-> fge (Number_value N) v = true) /\
  (passes (Number.Lt n value_) (NumberChain n) w <-> flt (Number_value N) v = true) /\
  (passes (Number.Le n value_) (NumberChain n) w <-> fle (Number_value N) v = true).
Proof.
  destruct comparisons_unfold as (-> & -> & -> & -> & -> & ->).
  repeat split; eapply decides_passes, compare_decides; eauto.
Qed.
End Comparisons.

(** X5.  On a Number whose chain has not failed and for a numeric operand:
    no two of [Lt], [Equal] and [Gt] succeed; one of them succeeds when
    neither the payload nor the operand is NaN, and none does when one of
    them is NaN. *)
Theorem Number_trichotomy (n : loc) (N : Number) (w : world) (value_ : any)
    (v : float64)
    (Hn : numbers w !! n = Some N) (Hok : failed (Number_chain N) = false)
    (Hv : toFloat64 value_ = Some v) :
  ~ (passes (Number.Lt n value_) (NumberChain n) w /\
     passes (Number.Equal n value_) (NumberChain n) w) /\
  ~ (passes (Number.Lt n value_) (NumberChain n) w /\
     passes (Number.Gt n value_) (NumberChain n) w) /\
  ~ (passes (Number.Equal n value_) (NumberChain n) w /\
     passes (Number.Gt n value_) (NumberChain n) w) /\
  (Number_value N <> NaN -> v <> NaN ->
   passes (Number.Lt n value_) (NumberChain n) w \/
   passes (Number.Equal n value_) (NumberChain n) w \/
   passes (Number.Gt n value_) (NumberChain n) w) /\
  (Number_value N = NaN \/ v = NaN ->
   ~ passes (Number.Lt n value_) (NumberChain n) w /\
   ~ passes (Number.Equal n value_) (NumberChain n) w /\
   ~ passes (Number.Gt n value_) (NumberChain n) w).
Proof.
  destruct (passes_comparisons n N w value_ v Hn Hok Hv)
    as (-> & _ & -> & _ & -> & _).
  unfold flt, feq, fgt, SFltb, SFeqb.
  rewrite (SFcompare_swap (Number_value N) v).
  pose proof (SFcompare_None (Number_value N) v) as HNone.
  destruct (SFcompare (Number_value N) v) as [[]|]; simpl;
    repeat split;
    try (intros [? ?]; congruence);
    try (intro; match goal with H : _ \/ _ |- _ => apply HNone in H; discriminate end);
    try congruence; auto;
    try (intros; exfalso; destruct (proj1 HNone eq_refl); contradiction).
Qed.

Lemma Number_trichotomy_witness :
  ~ (passes (Number.Lt 1%positive (IntV Int 20)) (NumberChain 1%positive) ok_world /\
     passes (Number.Gt 1%positive (IntV Int 20)) (NumberChain 1%positive) ok_world).
Proof.
  exact (proj1 (proj2 (Number_trichotomy 1%positive
                         (MkNumber (Chain 7%nat false) f10) ok_world (IntV Int 20)
                         (float64_of_Z 20) eq_refl eq_refl eq_refl))).
Defined.

(** X6.  On a Number whose chain has not failed and for a numeric operand:
    [Ge] succeeds exactly when [Gt] or [Equal] does, [Le] exactly when [Lt] or
    [Equal] does, and [NotEqual] exactly when [Equal] does not. *)
Theorem Number_weak_comparisons (n : loc) (N : Number) (w : world)
    (value_ : any) (v : float64)
    (Hn : numbers w !! n = Some N) (Hok : failed (Number_chain N) = false)
    (Hv : toFloat64 value_ = Some v) :
  (passes (Number.Ge n value_) (NumberChain n) w <->
   passes (Number.Gt n value_) (NumberChain n) w \/
   passes (Number.Equal n value_) (NumberChain n) w) /\
  (passes (Number.Le n value_) (NumberChain n) w <->
   passes (Number.Lt n value_) (NumberChain n) w \/
   passes (Number.Equal n value_) (NumberChain n) w) /\
  (passes (Number.NotEqual n value_) (NumberChain n) w <->
   ~ passes (Number.Equal n value_) (NumberChain n) w).
Proof.
  destruct (passes_comparisons n N w value_ v Hn Hok Hv)
    as (-> & -> & -> & -> & -> & ->).
  rewrite fge_split, fle_split. unfold fne, feq.
  destruct (fgt _ v), (flt _ v), (SFeqb _ v); simpl; intuition congruence.
Qed.

Lemma Number_weak_comparisons_witness :
  passes (Number.Ge 1%positive (IntV Int 10)) (NumberChain 1%positive) ok_world.
Proof.
  apply (Number_weak_comparisons 1%positive (MkNumber (Chain 7%nat false) f10)
           ok_world (IntV Int 10) f10 eq_refl eq_refl eq_refl).
  right.
  apply (passes_comparisons 1%positive (MkNumber (Chain 7%nat false) f10)
           ok_world (IntV Int 10) f10 eq_refl eq_refl eq_refl).
  reflexivity.
Defined.

(** X7.  For two Numbers with payloads [x] and [y] whose chains have not
    failed, checking the first against [y] mirrors checking the second
    against [x]: [Equal] succeeds on one exactly when it does on the other,
    [Gt] on one exactly when [Lt] on the other, and [Ge] exactly when
    [Le]. *)
Theorem Number_mirrored (n m : loc) (N K : Number) (w : world)
    (Hn : numbers w !! n = Some N) (Hm : numbers w !! m = Some K)
    (HokN : failed (Number_chain N) = false)
    (HokK : failed (Number_chain K) = false) :
  (passes (Number.Equal n (Float64V (Number_value K))) (NumberChain n) w <->
   passes (Number.Equal m (Float64V (Number_value N))) (NumberChain m) w) /\
  (passes (Number.Gt n (Float64V (Number_value K))) (NumberChain n) w <->
   passes (Number.Lt m (Float64V (Number_value N))) (NumberChain m) w) /\
  (passes (Number.Ge n (Float64V (Number_value K))) (NumberChain n) w <->
   passes (Number.Le m (Float64V (Number_value N))) (NumberChain m) w).
Proof.
  destruct (passes_comparisons n N w (Float64V (Number_value K)) _ Hn HokN eq_refl)
    as (-> & _ & -> & -> & _).
  destruct (passes_comparisons m K w (Float64V (Number_value N)) _ Hm HokK eq_refl)
    as (-> & _ & _ & _ & -> & ->).
  rewrite feq_sym. unfold fgt, flt, fge, fle. tauto.
Qed.

Lemma Number_mirrored_witness :
  passes (Number.Gt 2%positive (Float64V f10)) (NumberChain 2%positive) two_world <->
  passes (Number.Lt 1%positive (Float64V f123)) (NumberChain 1%positive) two_world.
Proof.
  exact (proj1 (proj2 (Number_mirrored 2%positive 1%positive
                         (MkNumber (Chain 7%nat false) f123)
                         (MkNumber (Chain 7%nat false) f10) two_world
                         eq_refl eq_refl eq_refl eq_refl))).
Defined.

(** ** number.go: InRange and the pair Ge, Le *)

(** Two failures charged to the same wrapper differ in the message only. *)
Lemma blameNumber_shape n N message args message' args' w :
  numbers w !! n = Some N ->
  numbers (blameNumber n N message args w)
  = numbers (blameNumber n N message' args' w) /\
  booleans (blameNumber n N message args w)
  = booleans (blameNumber n N message' args' w) /\
  length (errorf (blameNumber n N message args w))
  = length (errorf (blameNumber n N message' args' w)).
Proof.
  intros Hn. rewrite !(blameNumber_numbers _ _ _ _ _ Hn), !blameNumber_booleans,
    !blameNumber_errorf, !length_app.
  destruct (failed _); auto.
Qed.

(** X8.  [n.InRange(min, max)] and [n.Ge(min).Le(max)] leave every wrapper,
    the receiver's chain included, in the same state and make the same number
    of calls of the reporter, for every receiver and all operands, numeric or
    not; only the message of the call may differ, and not even that when [min]
    is not numeric. *)
Theorem InRange_as_Ge_Le (n : loc) (N : Number) (w : world) (min max : any)
    (Hn : numbers w !! n = Some N) :
  exists w1 w2,
    Number.InRange n min max w = Some (n, w1) /\
    (n' ← Number.Ge n min; Number.Le n' max) w = Some (n, w2) /\
    numbers w1 = numbers w2 /\
    booleans w1 = booleans w2 /\
    length (errorf w1) = length (errorf w2) /\
    (toFloat64 min = None -> w1 = w2).
Proof.
  destruct comparisons_unfold as (_ & _ & _ & -> & _ & ->).
  unfold mbind, M_bind.
  rewrite (InRange_run _ _ _ _ _ Hn), (compare_run _ _ _ _ _ _ Hn).
  assert (Hfailed : forall message args,
    compare fle "expected number <= %v, but got %v" n max
      (blameNumber n N message args w)
    = Some (n, blameNumber n N message args w)).
  { intros message args.
    rewrite (compare_run _ _ _ (markNumber N)); [|apply blameNumber_lookup, Hn].
    destruct (toFloat64 max) as [b|]; [destruct (fle _ b)|];
      rewrite ?(blameNumber_failed n (markNumber N)) by reflexivity;
      reflexivity. }
  destruct (toFloat64 min) as [a|].
  - destruct (fge (Number_value N) a) eqn:Ea; simpl.
    + rewrite (compare_run _ _ _ _ _ _ Hn).
      destruct (toFloat64 max) as [b|].
      * destruct (fle (Number_value N) b).
        -- exists w, w. repeat split; auto; try discriminate.
        -- do 2 eexists. split; [reflexivity|]. split; [reflexivity|].
           destruct (blameNumber_shape n N
                       "expected number in range [%v; %v], but got %v"
                       [Float64V a; Float64V b; Float64V (Number_value N)]
                       "expected number <= %v, but got %v"
                       [Float64V b; Float64V (Number_value N)] w Hn)
             as (H1 & H2 & H3).
           repeat split; auto; try discriminate.
      * do 2 eexists. repeat split; auto; try discriminate.
    + rewrite Hfailed. do 2 eexists. split; [reflexivity|]. split; [reflexivity|].
      destruct (toFloat64 max) as [b|];
        (split; [|split; [|split; [|discriminate]]]);
        eapply blameNumber_shape; eauto.
  - rewrite Hfailed. do 2 eexists. repeat split; auto.
Qed.

Lemma InRange_as_Ge_Le_witness :
  exists w1 w2,
    Number.InRange 1%positive (IntV Int 20) (IntV Int 5) ok_world
    = Some (1%positive, w1) /\
    (n' ← Number.Ge 1%positive (IntV Int 20); Number.Le n' (IntV Int 5)) ok_world
    = Some (1%positive, w2) /\
    numbers w1 = numbers w2.
Proof.
  destruct (InRange_as_Ge_Le 1%positive (MkNumber (Chain 7%nat false) f10)
              ok_world (IntV Int 20) (IntV Int 5) eq_refl)
    as (w1 & w2 & E1 & E2 & HN & _).
  exists w1, w2. split; [exact E1|]. split; [exact E2|exact HN].
Defined.

(** ** What a sequence of calls does, whatever the rest of the store *)

Lemma world_eta (w : world) : w = World (numbers w) (booleans w) (errorf w).
Proof. destruct w. reflexivity. Qed.

Lemma callNumber_uniform o (n : loc) (N : Number) :
  (forall w, numbers w !! n = Some N -> callNumber o n w = Some (n, w)) \/
  (exists message args, forall w, numbers w !! n = Some N ->
     callNumber o n w = Some (n, blameNumber n N message args w)).
Proof.
  assert (Hc : forall test message value_,
    (forall w, numbers w !! n = Some N ->
       compare test message n value_ w = Some (n, w)) \/
    (exists message' args, forall w, numbers w !! n = Some N ->
       compare test message n value_ w
       = Some (n, blameNumber n N message' args w))).
  { intros test message value_.
    destruct (toFloat64 value_) as [v|] eqn:Ev;
      [destruct (test (Number_value N) v) eqn:Et; [left|right]|right];
      [|do 2 eexists|do 2 eexists]; intros w Hn;
      rewrite (compare_run _ _ _ _ _ _ Hn), Ev, ?Et; reflexivity. }
  destruct o; simpl; try apply Hc.
  destruct (toFloat64 min) as [a|] eqn:Ea;
    [destruct (toFloat64 max) as [b|] eqn:Eb;
     [destruct (fge (Number_value N) a && fle (Number_value N) b) eqn:Et;
      [left|right]|right]|right];
    [|do 2 eexists|do 2 eexists|do 2 eexists]; intros w Hn;
    rewrite (InRange_run _ _ _ _ _ Hn), Ea, ?Eb, ?Et; reflexivity.
Qed.

Lemma callBoolean_uniform o (b : loc) (B : Boolean) :
  (forall w, booleans w !! b = Some B -> callBoolean o b w = Some (b, w)) \/
  (exists message args, forall w, booleans w !! b = Some B ->
     callBoolean o b w = Some (b, blameBoolean b B message args w)).
Proof.
  destruct o as [v|v| |]; simpl; unfold Boolean.True, Boolean.False.
  - destruct (Bool.eqb (Boolean_value B) v) eqn:E; [left|right; do 2 eexists];
      intros w Hb; rewrite (Boolean_Equal_run _ _ _ _ Hb), E; reflexivity.
  - destruct (Bool.eqb (Boolean_value B) v) eqn:E; [right; do 2 eexists|left];
      intros w Hb; rewrite (Boolean_NotEqual_run _ _ _ _ Hb), E; reflexivity.
  - destruct (Bool.eqb (Boolean_value B) true) eqn:E; [left|right; do 2 eexists];
      intros w Hb; rewrite (Boolean_Equal_run _ _ _ _ Hb), E; reflexivity.
  - destruct (Bool.eqb (Boolean_value B) false) eqn:E; [left|right; do 2 eexists];
      intros w Hb; rewrite (Boolean_Equal_run _ _ _ _ Hb), E; reflexivity.
Qed.

(** A sequence of calls on the Number at [n] rewrites that wrapper and
    appends to the calls of the reporter; what it writes and appends depends
    on the wrapper and the operands only: either nothing, or the mark of a
    first failure and its one report. *)
Lemma callsNumber_summary os (n : loc) : forall N : Number,
  exists N' rs,
    ((N' = N /\ rs = []) \/
     (failed (Number_chain N) = false /\ N' = markNumber N /\
      exists message args, rs = [(reporter (Number_chain N), message, args)])) /\
    forall w, numbers w !! n = Some N ->
      callsNumber os n w
      = Some (n, World (<[n := N']> (numbers w)) (booleans w) (errorf w ++ rs)).
Proof.
  assert (Hid : forall N w, numbers w !! n = Some N ->
    w = World (<[n := N]> (numbers w)) (booleans w) (errorf w ++ [])).
  { intros N w Hn. rewrite app_nil_r, (insert_id _ _ _ Hn). apply world_eta. }
  induction os as [|o os IH]; intros N.
  - exists N, []. split; [left; auto|]. intros w Hn. simpl.
    unfold mret, M_ret. f_equal. f_equal. apply Hid, Hn.
  - assert (Hsame : (forall w, numbers w !! n = Some N ->
                       callNumber o n w = Some (n, w)) ->
      exists N' rs,
        ((N' = N /\ rs = []) \/
         (failed (Number_chain N) = false /\ N' = markNumber N /\
          exists message args, rs = [(reporter (Number_chain N), message, args)])) /\
        forall w, numbers w !! n = Some N ->
          callsNumber (o :: os) n w
          = Some (n, World (<[n := N']> (numbers w)) (booleans w) (errorf w ++ rs))).
    { intros Hu. destruct (IH N) as (N' & rs & Hd & Hrun).
      exists N', rs. split; [exact Hd|]. intros w Hn. simpl.
      unfold mbind, M_bind. rewrite (Hu w Hn). apply Hrun, Hn. }
    destruct (callNumber_uniform o n N) as [Hu|(message & args & Hu)];
      [apply Hsame, Hu|].
    destruct (failed (Number_chain N)) eqn:Hf.
    + apply Hsame. intros w Hn. rewrite (Hu w Hn), blameNumber_failed; auto.
    + destruct (IH (markNumber N)) as (N' & rs & Hd & Hrun).
      destruct Hd as [(-> & ->)|(Hc & _)]; [|discriminate].
      exists (markNumber N), [(reporter (Number_chain N), message, args)].
      split; [right; eauto|]. intros w Hn. simpl. unfold mbind, M_bind.
      rewrite (Hu w Hn), Hrun by (apply blameNumber_lookup, Hn).
      rewrite (blameNumber_numbers _ _ _ _ _ Hn), blameNumber_booleans,
        blameNumber_errorf, Hf, insert_insert_eq, app_nil_r.
      reflexivity.
Qed.

Lemma callsBoolean_summary os (b : loc) : forall B : Boolean,
  exists B' rs,
    ((B' = B /\ rs = []) \/
     (failed (Boolean_chain B) = false /\ B' = markBoolean B /\
      exists message args, rs = [(reporter (Boolean_chain B), message, args)])) /\
    forall w, booleans w !! b = Some B ->
      callsBoolean os b w
      = Some (b, World (numbers w) (<[b := B']> (booleans w)) (errorf w ++ rs)).
Proof.
  assert (Hid : forall B w, booleans w !! b = Some B ->
    w = World (numbers w) (<[b := B]> (booleans w)) (errorf w ++ [])).
  { intros B w Hb. rewrite app_nil_r, (insert_id _ _ _ Hb). apply world_eta. }
  induction os as [|o os IH]; intros B.
  - exists B, []. split; [left; auto|]. intros w Hb. simpl.
    unfold mret, M_ret. f_equal. f_equal. apply Hid, Hb.
  - assert (Hsame : (forall w, booleans w !! b = Some B ->
                       callBoolean o b w = Some (b, w)) ->
      exists B' rs,
        ((B' = B /\ rs = []) \/
         (failed (Boolean_chain B) = false /\ B' = markBoolean B /\
          exists message args, rs = [(reporter (Boolean_chain B), message, args)])) /\
        forall w, booleans w !! b = Some B ->
          callsBoolean (o :: os) b w
          = Some (b, World (numbers w) (<[b := B']> (booleans w)) (errorf w ++ rs))).
    { intros Hu. destruct (IH B) as (B' & rs & Hd & Hrun).
      exists B', rs. split; [exact Hd|]. intros w Hb. simpl.
      unfold mbind, M_bind. rewrite (Hu w Hb). apply Hrun, Hb. }
    destruct (callBoolean_uniform o b B) as [Hu|(message & args & Hu)];
      [apply Hsame, Hu|].
    destruct (failed (Boolean_chain B)) eqn:Hf.
    + apply Hsame. intros w Hb. rewrite (Hu w Hb), blameBoolean_failed; auto.
    + destruct (IH (markBoolean B)) as (B' & rs & Hd & Hrun).
      destruct Hd as [(-> & ->)|(Hc & _)]; [|discriminate].
      exists (markBoolean B), [(reporter (Boolean_chain B), message, args)].
      split; [right; eauto|]. intros w Hb. simpl. unfold mbind, M_bind.
      rewrite (Hu w Hb), Hrun by (apply blameBoolean_lookup, Hb).
      rewrite (blameBoolean_booleans _ _ _ _ _ Hb), blameBoolean_numbers,
        blameBoolean_errorf, Hf, insert_insert_eq, app_nil_r.
      reflexivity.
Qed.

(** X9.  Over any sequence of assertion methods called on one Number, or on
    one Boolean, the reporter receives at most one call: none when the chain
    ends as it started, and exactly one, to the wrapper's own reporter, when
    the chain goes from not failed to failed.  A failed chain is never
    reset. *)
Theorem one_report_per_wrapper :
  (forall os n N w, numbers w !! n = Some N ->
     exists w' rs,
       callsNumber os n w = Some (n, w') /\
       errorf w' = errorf w ++ rs /\
       ((chainFailed (NumberChain n) w' = Some (failed (Number_chain N), w') /\
         rs = []) \/
        (failed (Number_chain N) = false /\
         chainFailed (NumberChain n) w' = Some (true, w') /\
         exists message args,
           rs = [(reporter (Number_chain N), message, args)]))) /\
  (forall os b B w, booleans w !! b = Some B ->
     exists w' rs,
       callsBoolean os b w = Some (b, w') /\
       errorf w' = errorf w ++ rs /\
       ((chainFailed (BooleanChain b) w' = Some (failed (Boolean_chain B), w') /\
         rs = []) \/
        (failed (Boolean_chain B) = false /\
         chainFailed (BooleanChain b) w' = Some (true, w') /\
         exists message args,
           rs = [(reporter (Boolean_chain B), message, args)]))).
Proof.
  split.
  - intros os n N w Hn.
    destruct (callsNumber_summary os n N) as (N' & rs & Hd & Hrun).
    eexists. exists rs. split; [apply Hrun, Hn|]. split; [reflexivity|].
    rewrite (chainFailed_Number n N') by apply lookup_insert_eq.
    destruct Hd as [(-> & ->)|(Hf & -> & Hrs)]; [left|right]; auto.
  - intros os b B w Hb.
    destruct (callsBoolean_summary os b B) as (B' & rs & Hd & Hrun).
    eexists. exists rs. split; [apply Hrun, Hb|]. split; [reflexivity|].
    rewrite (chainFailed_Boolean b B') by apply lookup_insert_eq.
    destruct Hd as [(-> & ->)|(Hf & -> & Hrs)]; [left|right]; auto.
Qed.

Lemma one_report_per_wrapper_witness :
  exists w' rs,
    callsNumber [CallGt (IntV Int 20); CallEqual (StringV "x"); CallLt (IntV Int 5)]
      1%positive ok_world = Some (1%positive, w') /\
    errorf w' = errorf ok_world ++ rs /\ (length rs <= 1)%nat.
Proof.
  destruct (proj1 one_report_per_wrapper
              [CallGt (IntV Int 20); CallEqual (StringV "x"); CallLt (IntV Int 5)]
              1%positive (MkNumber (Chain 7%nat false) f10) ok_world eq_refl)
    as (w' & rs & E & HE & Hd).
  exists w', rs. split; [exact E|]. split; [exact HE|].
  destruct Hd as [(_ & ->)|(_ & _ & message & args & ->)]; simpl; lia.
Defined.

(** X10.  Checks on two different wrappers do not interfere: made in either
    order, two sequences of calls leave the same wrappers, and the reporter
    receives the calls each sequence makes when it is run alone, in the order
    the sequences are run.  This holds for two Numbers and for a Number and a
    Boolean. *)
Theorem checks_on_distinct_wrappers (w : world) :
  (forall os os' n m N K,
     n <> m -> numbers w !! n = Some N -> numbers w !! m = Some K ->
     exists nums rs rs' w1 w2,
       callsNumber os n w = Some (n, w1) /\ errorf w1 = errorf w ++ rs /\
       callsNumber os' m w = Some (m, w2) /\ errorf w2 = errorf w ++ rs' /\
       (_ ← callsNumber os n; callsNumber os' m) w
       = Some (m, World nums (booleans w) (errorf w ++ rs ++ rs')) /\
       (_ ← callsNumber os' m; callsNumber os n) w
       = Some (n, World nums (booleans w) (errorf w ++ rs' ++ rs)) /\
       nums !! n = numbers w1 !! n /\ nums !! m = numbers w2 !! m) /\
  (forall os os' n b N B,
     numbers w !! n = Some N -> booleans w !! b = Some B ->
     exists nums bools rs rs' w1 w2,
       callsNumber os n w = Some (n, w1) /\ errorf w1 = errorf w ++ rs /\
       callsBoolean os' b w = Some (b, w2) /\ errorf w2 = errorf w ++ rs' /\
       (_ ← callsNumber os n; callsBoolean os' b) w
       = Some (b, World nums bools (errorf w ++ rs ++ rs')) /\
       (_ ← callsBoolean os' b; callsNumber os n) w
       = Some (n, World nums bools (errorf w ++ rs' ++ rs)) /\
       nums = numbers w1 /\ bools = booleans w2).
Proof.
  split.
  - intros os os' n m N K Hne Hn Hm.
    destruct (callsNumber_summary os n N) as (N' & rs & _ & Hrun).
    destruct (callsNumber_summary os' m K) as (K' & rs' & _ & Hrun').
    exists (<[m := K']> (<[n := N']> (numbers w))), rs, rs'.
    do 2 eexists.
    split; [apply Hrun, Hn|]. split; [reflexivity|].
    split; [apply Hrun', Hm|]. split; [reflexivity|].
    unfold mbind, M_bind. rewrite (Hrun w Hn), (Hrun' w Hm).
    rewrite Hrun' by (simpl; rewrite lookup_insert_ne; auto).
    rewrite Hrun by (simpl; rewrite lookup_insert_ne; auto).
    simpl. rewrite <- !app_assoc, (insert_insert_ne _ n m) by auto.
    repeat split.
    + rewrite lookup_insert_ne, !lookup_insert_eq; auto.
    + rewrite !lookup_insert_eq. reflexivity.
  - intros os os' n b N B Hn Hb.
    destruct (callsNumber_summary os n N) as (N' & rs & _ & Hrun).
    destruct (callsBoolean_summary os' b B) as (B' & rs' & _ & Hrun').
    exists (<[n := N']> (numbers w)), (<[b := B']> (booleans w)), rs, rs'.
    do 2 eexists.
    split; [apply Hrun, Hn|]. split; [reflexivity|].
    split; [apply Hrun', Hb|]. split; [reflexivity|].
    unfold mbind, M_bind. rewrite (Hrun w Hn), (Hrun' w Hb).
    rewrite Hrun' by exact Hb. rewrite Hrun by exact Hn.
    simpl. rewrite <- !app_assoc. repeat split.
Qed.

Lemma checks_on_distinct_wrappers_witness :
  exists nums rs rs',
    (_ ← callsNumber [CallGt (IntV Int 20)] 1%positive;
     callsNumber [CallLt (IntV Int 20)] 2%positive) two_world
    = Some (2%positive, World nums ∅ (rs ++ rs')) /\
    (_ ← callsNumber [CallLt (IntV Int 20)] 2%positive;
     callsNumber [CallGt (IntV Int 20)] 1%positive) two_world
    = Some (1%positive, World nums ∅ (rs' ++ rs)).
Proof.
  destruct (proj1 (checks_on_distinct_wrappers two_world)
              [CallGt (IntV Int 20)] [CallLt (IntV Int 20)]
              1%positive 2%positive
              (MkNumber (Chain 7%nat false) f10)
              (MkNumber (Chain 7%nat false) f123))
    as (nums & rs & rs' & w1 & w2 & _ & _ & _ & _ & E1 & E2 & _);
    [discriminate|reflexivity|reflexivity|].
  exists nums, rs, rs'. split; [exact E1|exact E2].
Defined.

(** ** Constructors *)

Lemma NewNumber_run r v w :
  exists n,
    Number.NewNumber r v w
    = Some (n, World (<[n := MkNumber (Chain r false) v]> (numbers w))
                     (booleans w) (errorf w)) /\
    numbers w !! n = None.
Proof.
  exists (fresh (dom (numbers w))). split; [reflexivity|].
  apply not_elem_of_dom, is_fresh.
Qed.

Lemma NewBoolean_run r v w :
  exists b,
    Boolean.NewBoolean r v w
    = Some (b, World (numbers w)
                     (<[b := MkBoolean (Chain r false) v]> (booleans w))
                     (errorf w)) /\
    booleans w !! b = None.
Proof.
  exists (fresh (dom (booleans w))). split; [reflexivity|].
  apply not_elem_of_dom, is_fresh.
Qed.

(** X11.  Two Numbers made one after the other, even with the same reporter,
    are different wrappers with chains of their own: whatever checks fail on
    the first, the second is not failed and holds its payload, and the
    wrappers that existed before keep their state. *)
Theorem constructed_wrappers_independent (r : Reporter) (x y : float64)
    (os : list numberCall) (w : world) :
  exists n m w',
    (n ← Number.NewNumber r x; m ← Number.NewNumber r y;
     _ ← callsNumber os n; mret (n, m)) w = Some ((n, m), w') /\
    n <> m /\
    chainFailed (NumberChain m) w' = Some (false, w') /\
    Number.Raw m w' = Some (y, w') /\
    Number.Raw n w' = Some (x, w') /\
    (forall k N, numbers w !! k = Some N -> numbers w' !! k = Some N) /\
    booleans w' = booleans w.
Proof.
  destruct (NewNumber_run r x w) as (n & En & Hfn).
  set (w1 := World (<[n := MkNumber (Chain r false) x]> (numbers w))
                   (booleans w) (errorf w)) in *.
  destruct (NewNumber_run r y w1) as (m & Em & Hfm).
  set (w2 := World (<[m := MkNumber (Chain r false) y]> (numbers w1))
                   (booleans w1) (errorf w1)) in *.
  assert (Hne : n <> m).
  { intros <-. simpl in Hfm. rewrite lookup_insert_eq in Hfm. discriminate. }
  assert (Hn2 : numbers w2 !! n = Some (MkNumber (Chain r false) x)).
  { simpl. rewrite lookup_insert_ne, lookup_insert_eq; auto. }
  destruct (callsNumber_summary os n (MkNumber (Chain r false) x))
    as (N' & rs & Hd & Hrun).
  exists n, m. eexists.
  unfold mbind, M_bind. rewrite En, Em, (Hrun w2 Hn2).
  split; [reflexivity|]. split; [exact Hne|].
  assert (Hm : numbers (World (<[n := N']> (numbers w2)) (booleans w2)
                              (errorf w2 ++ rs)) !! m
               = Some (MkNumber (Chain r false) y)).
  { simpl. rewrite lookup_insert_ne, lookup_insert_eq; auto. }
  split; [rewrite (chainFailed_Number _ _ _ Hm); reflexivity|].
  split; [unfold Number.Raw, Number.value; rewrite Hm; reflexivity|].
  split.
  { unfold Number.Raw, Number.value. simpl. rewrite lookup_insert_eq.
    destruct Hd as [(-> & _)|(_ & -> & _)]; reflexivity. }
  split; [|reflexivity].
  intros k N Hk. simpl.
  assert (k <> n) by (intros ->; congruence).
  assert (k <> m).
  { intros ->. simpl in Hfm. rewrite lookup_insert_ne in Hfm by auto. congruence. }
  rewrite !lookup_insert_ne by auto. exact Hk.
Qed.

(** ** expect.go *)

(** X12.  [WithConfig] panics exactly when the Reporter of the Config is nil,
    and then nothing is built.  Otherwise it returns, without touching the
    store, an Expect that keeps the BaseURL, the Reporter and the Printers of
    the Config, and its Client unless this is nil, in which case the default
    client is used; the Config of the result is one [WithConfig] returns
    unchanged. *)
Theorem WithConfig_result (config_ : Config) (w : world) :
  (Config_Reporter config_ = None <-> WithConfig config_ w = None) /\
  (Config_Reporter config_ = None ->
   forall x, (e ← WithConfig config_; Expect.Number e x) w = None) /\
  (forall e w', WithConfig config_ w = Some (e, w') ->
     w' = w /\
     BaseURL (config e) = BaseURL config_ /\
     Config_Reporter (config e) = Config_Reporter config_ /\
     Printers (config e) = Printers config_ /\
     Config_Client (config e)
     = Some (match Config_Client config_ with
             | Some c => c
             | None => DefaultClient
             end) /\
     WithConfig (config e) w = Some (e, w)).
Proof.
  unfold WithConfig, mbind, M_bind.
  destruct config_ as [url [c|] [r|] ps]; simpl;
    (split; [split; congruence|]); (split; [congruence|]);
    intros e w' E; inversion E; subst; simpl; auto 10.
Qed.

Lemma WithConfig_result_witness :
  WithConfig (MkConfig "http://example.com" None None []) empty_world = None.
Proof.
  apply (WithConfig_result (MkConfig "http://example.com" None None [])
           empty_world).
  reflexivity.
Defined.

(** X13.  With a Config whose Reporter [r] is not nil, [e.Number(value)] and
    [e.Boolean(value)] on the Expect that [WithConfig] returns are
    [NewNumber(r, value)] and [NewBoolean(r, value)]; and whatever checks are
    then made on such a wrapper, [Raw] returns [value] and every call the
    reporter receives is made to [r]. *)
Theorem Expect_wrappers (config_ : Config) (r : Reporter) (w : world)
    (Hr : Config_Reporter config_ = Some r) :
  (forall x, (e ← WithConfig config_; Expect.Number e x) w
             = Number.NewNumber r x w) /\
  (forall x, (e ← WithConfig config_; Expect.Boolean e x) w
             = Boolean.NewBoolean r x w) /\
  (forall x os, exists n w' rs,
     (e ← WithConfig config_; n ← Expect.Number e x; callsNumber os n) w
     = Some (n, w') /\
     Number.Raw n w' = Some (x, w') /\
     errorf w' = errorf w ++ rs /\
     Forall (fun rep : report => fst (fst rep) = r) rs) /\
  (forall x os, exists b w' rs,
     (e ← WithConfig config_; b ← Expect.Boolean e x; callsBoolean os b) w
     = Some (b, w') /\
     Boolean.Raw b w' = Some (x, w') /\
     errorf w' = errorf w ++ rs /\
     Forall (fun rep : report => fst (fst rep) = r) rs).
Proof.
  assert (HW : exists e, WithConfig config_ w = Some (e, w) /\
                         Config_Reporter (config e) = Some r).
  { unfold WithConfig. destruct config_ as [url [c|] rr ps]; simpl in *;
      subst rr; eexists; split; reflexivity. }
  destruct HW as (e & HW & He).
  assert (HN : forall x, (e ← WithConfig config_; Expect.Number e x) w
                         = Number.NewNumber r x w).
  { intros x. unfold mbind, M_bind. rewrite HW. unfold Expect.Number.
    rewrite He. reflexivity. }
  assert (HB : forall x, (e ← WithConfig config_; Expect.Boolean e x) w
                         = Boolean.NewBoolean r x w).
  { intros x. unfold mbind, M_bind. rewrite HW. unfold Expect.Boolean.
    rewrite He. reflexivity. }
  split; [exact HN|]. split; [exact HB|]. split.
  - intros x os. specialize (HN x). unfold mbind, M_bind in *.
    rewrite HW in *. rewrite HN.
    destruct (NewNumber_run r x w) as (n & -> & _).
    destruct (callsNumber_summary os n (MkNumber (Chain r false) x))
      as (N' & rs & Hd & Hrun).
    exists n. eexists. exists rs.
    split; [apply Hrun; apply lookup_insert_eq|].
    split.
    { unfold Number.Raw, Number.value. simpl. rewrite lookup_insert_eq.
      destruct Hd as [(-> & _)|(_ & -> & _)]; reflexivity. }
    split; [reflexivity|].
    destruct Hd as [(_ & ->)|(_ & _ & message & args & ->)]; repeat constructor.
  - intros x os. specialize (HB x). unfold mbind, M_bind in *.
    rewrite HW in *. rewrite HB.
    destruct (NewBoolean_run r x w) as (b & -> & _).
    destruct (callsBoolean_summary os b (MkBoolean (Chain r false) x))
      as (B' & rs & Hd & Hrun).
    exists b. eexists. exists rs.
    split; [apply Hrun; apply lookup_insert_eq|].
    split.
    { unfold Boolean.Raw, Boolean.value. simpl. rewrite lookup_insert_eq.
      destruct Hd as [(-> & _)|(_ & -> & _)]; reflexivity. }
    split; [reflexivity|].
    destruct Hd as [(_ & ->)|(_ & _ & message & args & ->)]; repeat constructor.
Qed.

Lemma Expect_wrappers_witness :
  (e ← WithConfig (MkConfig "http://example.com" None (Some 7%nat) []);
   Expect.Number e f10) empty_world
  = Number.NewNumber 7%nat f10 empty_world.
Proof.
  apply (Expect_wrappers (MkConfig "http://example.com" None (Some 7%nat) [])
           7%nat empty_world eq_refl).
Defined.

Lemma constructed_wrappers_independent_witness :
  exists n m w',
    (n ← Number.NewNumber 7%nat f10; m ← Number.NewNumber 7%nat f123;
     _ ← callsNumber [CallGt (IntV Int 20)] n; mret (n, m)) empty_world
    = Some ((n, m), w') /\
    chainFailed (NumberChain m) w' = Some (false, w').
Proof.
  destruct (constructed_wrappers_independent 7%nat f10 f123
              [CallGt (IntV Int 20)] empty_world)
    as (n & m & w' & E & _ & HF & _).
  exists n, m, w'. split; [exact E|exact HF].
Defined.

(** ** The first failure *)

Lemma callsNumber_inert os (n : loc) (N : Number) (w : world) :
  numbers w !! n = Some N -> failed (Number_chain N) = true ->
  callsNumber os n w = Some (n, w).
Proof.
  intros Hn Hf. induction os as [|o os IH]; [reflexivity|].
  simpl. unfold mbind, M_bind. rewrite (callNumber_failed o n N w Hn Hf). exact IH.
Qed.

(** X14.  In a fluent sequence of checks on a Number, the first check that
    fails decides the outcome: when the checks before it succeed, leaving the
    store as it is, and it leaves the chain failed, the whole sequence leaves
    the store that this check leaves, whatever checks follow. *)
Theorem first_failure_wins (n : loc) (w w1 : world) (os1 os2 : list numberCall)
    (o : numberCall)
    (Hpass : Forall (fun o' => callNumber o' n w = Some (n, w)) os1)
    (Hfail : callNumber o n w = Some (n, w1))
    (Hf : chainFailed (NumberChain n) w1 = Some (true, w1)) :
  callsNumber (os1 ++ o :: os2) n w = Some (n, w1).
Proof.
  induction Hpass as [|o' os1 Ho' _ IH]; simpl; unfold mbind, M_bind.
  - rewrite Hfail.
    destruct (numbers w1 !! n) as [N1|] eqn:Hn1.
    + apply (callsNumber_inert os2 n N1 w1 Hn1).
      rewrite (chainFailed_Number _ _ _ Hn1) in Hf. congruence.
    + unfold chainFailed, mbind, M_bind in Hf. simpl in Hf.
      rewrite Hn1 in Hf. discriminate.
  - rewrite Ho'. exact IH.
Qed.

Lemma first_failure_wins_witness :
  callsNumber ([CallLt (IntV Int 20); CallEqual (Float64V f10)]
               ++ CallGt (IntV Int 20) :: [CallEqual (IntV Int 0); CallInRange Nil Nil])
    1%positive ok_world
  = Number.Gt 1%positive (IntV Int 20) ok_world.
Proof.
  apply (first_failure_wins 1%positive ok_world _
           [CallLt (IntV Int 20); CallEqual (Float64V f10)]
           [CallEqual (IntV Int 0); CallInRange Nil Nil]
           (CallGt (IntV Int 20))).
  - repeat constructor.
  - reflexivity.
  - reflexivity.
Defined.
